(** * PDFPasswordServer: the access-control kernel of [server.js]

    A shallow embedding of the two variants of [server.js] (the first serves
    PDFs only, the second adds the PNG manifest for iOS clients), and the
    properties of the access-control kernel proved about them.

    Conventions of the embedding.
    - JavaScript numbers that the handlers compute with ([Date.now()],
      the [timestamp] claim) are integers well inside the range in which
      doubles are exact; they are modelled as [Z].  Times are in
      milliseconds, and the reads of the clock in one run of a handler give
      one value.  Page numbers come from file names and can be of any size:
      [parseInt] rounds them to a double ([Str.to_double]).
    - JavaScript strings are modelled as [string].  Every character class of
      the source only contains ASCII characters, so a character outside ASCII
      is outside every class in either representation.
    - [process.env.PDF_PASSWORD] and [process.env.JWT_SECRET] are set (the
      README lists both as required); they are fields of [config].
    - The file system is a finite map from paths to nodes; every call of
      [fs.existsSync], [fs.readdirSync] and [fs.createReadStream] is recorded
      in a log, so that "no storage access" is a statement about the log. *)

From Stdlib Require Import ZArith List String Ascii Bool Lia.
From Stdlib Require Import Sorting.Sorted Sorting.Permutation.
From stdpp Require Import base gmap strings.
Import ListNotations.

Local Open Scope string_scope.
Local Open Scope list_scope.
Local Open Scope Z_scope.

Set Default Proof Using "Type".

(** ** Strings *)

Module Str.

Definition chars (s : string) : list ascii := list_ascii_of_string s.
Definition of_chars (cs : list ascii) : string := string_of_list_ascii cs.

(** [s.startsWith(p)] *)
Definition startsWith (s p : string) : bool := String.prefix p s.

Fixpoint list_prefix (p l : list ascii) : bool :=
  match p, l with
  | [], _ => true
  | a :: p', b :: l' => Ascii.eqb a b && list_prefix p' l'
  | _ :: _, [] => false
  end.

(** [s.endsWith(p)] *)
Definition endsWith (s p : string) : bool :=
  list_prefix (rev (chars p)) (rev (chars s)).

(** [s.replace(pat, by)] for a string pattern: only the first occurrence
    is replaced.  The source only calls it with the non-empty pattern
    ['.pdf']. *)
Fixpoint replace_first (pat by_ s : string) : string :=
  if String.prefix pat s
  then by_ +:+ String.substring (String.length pat) (String.length s - String.length pat) s
  else match s with
       | EmptyString => EmptyString
       | String c s' => String c (replace_first pat by_ s')
       end.

Definition is_digit (c : ascii) : bool :=
  (N_of_ascii "0" <=? N_of_ascii c)%N && (N_of_ascii c <=? N_of_ascii "9")%N.

Definition digit_val (c : ascii) : Z := Z.of_N (N_of_ascii c) - 48.

(** The integer that a string of decimal digits denotes. *)
Definition decimal_value (cs : list ascii) : Z :=
  fold_left (fun acc c => 10 * acc + digit_val c) cs 0.

(** The number value (IEEE 754 binary64) of a non-negative integer: the
    integer itself below [2^53]; above, the nearest number with a significand
    of 53 bits, ties to the even significand; [Infinity] from
    [2^1024 - 2^970] on.  [Infinity] is written [2^1024], which is above every
    finite double. *)
Definition to_double (n : Z) : Z :=
  if n <? 2 ^ 53 then n
  else
    let k := Z.log2 n - 52 in
    let q := n / 2 ^ k in
    let r := n mod 2 ^ k in
    let half := 2 ^ (k - 1) in
    let q' := if r <? half then q
              else if half <? r then q + 1
              else if Z.even q then q else q + 1 in
    Z.min (q' * 2 ^ k) (2 ^ 1024).

(** [parseInt(s)] on a string of decimal digits (radix 10, leading zeros
    allowed): the number value of the integer the digits denote. *)
Definition parseInt_digits (cs : list ascii) : Z :=
  to_double (decimal_value cs).

End Str.

(** ** Regular expressions

    The two regular expressions of the source,
    [/^[a-zA-Z0-9\-_\.]+\.pdf$/] and [/-(\d+)\.png$/], are kept as syntax
    trees and run by a derivative matcher; [Matches] is the reference
    semantics the matcher is proved against. *)

Module Regex.

Inductive cls_item : Type :=
| Range (lo hi : ascii)
| One (c : ascii).

Definition item_has (c : ascii) (i : cls_item) : bool :=
  match i with
  | Range lo hi => (N_of_ascii lo <=? N_of_ascii c)%N && (N_of_ascii c <=? N_of_ascii hi)%N
  | One d => Ascii.eqb d c
  end.

Definition cls_has (items : list cls_item) (c : ascii) : bool :=
  existsb (item_has c) items.

Inductive re : Type :=
| Void
| Eps
| Class (items : list cls_item)
| Cat (r s : re)
| Alt (r s : re)
| Star (r : re).

(** [r+] *)
Definition Plus (r : re) : re := Cat r (Star r).

(** A literal string. *)
Fixpoint Lit (cs : list ascii) : re :=
  match cs with
  | [] => Eps
  | c :: cs' => Cat (Class [One c]) (Lit cs')
  end.

Inductive Matches : re -> list ascii -> Prop :=
| MEps : Matches Eps []
| MClass items c : cls_has items c = true -> Matches (Class items) [c]
| MCat r s u v : Matches r u -> Matches s v -> Matches (Cat r s) (u ++ v)
| MAltL r s u : Matches r u -> Matches (Alt r s) u
| MAltR r s u : Matches s u -> Matches (Alt r s) u
| MStarNil r : Matches (Star r) []
| MStarApp r u v : Matches r u -> Matches (Star r) v -> Matches (Star r) (u ++ v).

Fixpoint nullable (r : re) : bool :=
  match r with
  | Void => false
  | Eps => true
  | Class _ => false
  | Cat r s => nullable r && nullable s
  | Alt r s => nullable r || nullable s
  | Star _ => true
  end.

Fixpoint deriv (c : ascii) (r : re) : re :=
  match r with
  | Void => Void
  | Eps => Void
  | Class items => if cls_has items c then Eps else Void
  | Cat r s =>
      if nullable r then Alt (Cat (deriv c r) s) (deriv c s)
      else Cat (deriv c r) s
  | Alt r s => Alt (deriv c r) (deriv c s)
  | Star r => Cat (deriv c r) (Star r)
  end.

(** The whole of [w] is matched by [r]: the pattern [^r$]. *)
Fixpoint accepts (r : re) (w : list ascii) : bool :=
  match w with
  | [] => nullable r
  | c :: w' => accepts (deriv c r) w'
  end.

(** The pattern [r$] without a start anchor: the engine tries the start
    positions from left to right, and a match has to reach the end of
    the input, so the result is the leftmost suffix that [r] matches. *)
Fixpoint search_suffix (r : re) (w : list ascii) : option (list ascii) :=
  if accepts r w then Some w
  else match w with
       | [] => None
       | _ :: w' => search_suffix r w'
       end.

End Regex.

(** ** JavaScript values, errors and the effect monad *)

(** A value of a parsed JSON request body or of a token payload.
    [JObject] stands for any object or array: it is truthy, and it is
    never [===] to a string. *)
Inductive jsval : Type :=
| JUndefined
| JNull
| JBool (b : bool)
| JNum (n : Z)
| JStr (s : string)
| JObject.

(** ToBoolean *)
Definition truthy (v : jsval) : bool :=
  match v with
  | JUndefined | JNull => false
  | JBool b => b
  | JNum n => negb (n =? 0)
  | JStr s => negb (String.eqb s "")
  | JObject => true
  end.

(** [v === s] for a string [s] *)
Definition strict_eq_string (v : jsval) (s : string) : bool :=
  match v with
  | JStr t => String.eqb t s
  | _ => false
  end.

Inductive js_error : Type :=
| JsonWebTokenError (msg : string)
| TokenExpiredError
| TypeError (msg : string)
| SystemError (code : string).

Inductive outcome (A : Type) : Type :=
| Ret (a : A)
| Throw (e : js_error).
Arguments Ret {A} a.
Arguments Throw {A} e.

(** ** File system and its log *)

Inductive fs_node : Type :=
| File
| Dir (entries : list string).

Inductive fs_event : Type :=
| ExistsSync (p : string)
| ReaddirSync (p : string)
| CreateReadStream (p : string).

(** A computation that may throw and that appends to the log of file
    system calls. *)
Definition Eff (A : Type) : Type := list fs_event -> outcome A * list fs_event.

Definition ret {A} (a : A) : Eff A := fun log => (Ret a, log).
Definition throw {A} (e : js_error) : Eff A := fun log => (Throw e, log).
Definition bind {A B} (m : Eff A) (k : A -> Eff B) : Eff B :=
  fun log =>
    match m log with
    | (Ret a, log') => k a log'
    | (Throw e, log') => (Throw e, log')
    end.
(** [try { m } catch (error) { h error }] *)
Definition try_catch {A} (m : Eff A) (h : js_error -> Eff A) : Eff A :=
  fun log =>
    match m log with
    | (Ret a, log') => (Ret a, log')
    | (Throw e, log') => h e log'
    end.
Definition lift {A} (o : outcome A) : Eff A := fun log => (o, log).

Notation "'do' x <- m ; k" := (bind m (fun x => k))
  (at level 10, x name, m at level 100, k at level 200).

Section FileSystem.
Variable fs : gmap string fs_node.

Definition existsSync (p : string) : Eff bool :=
  fun log => (Ret (bool_decide (is_Some (fs !! p))), log ++ [ExistsSync p]).

Definition readdirSync (p : string) : Eff (list string) :=
  fun log =>
    (match fs !! p with
     | Some (Dir entries) => Ret entries
     | Some File => Throw (SystemError "ENOTDIR")
     | None => Throw (SystemError "ENOENT")
     end, log ++ [ReaddirSync p]).

End FileSystem.

(** A stream made by [fs.createReadStream]: it delivers the content of a
    file, or it emits an ['error'] event (on a directory, [EISDIR]). *)
Inductive read_stream : Type :=
| Readable (p : string)
| Failing (p : string) (code : string).

Section Streams.
Variable fs : gmap string fs_node.

(** [fs.createReadStream(p)]: the call itself does not throw; what the
    stream will do depends on what is at [p]. *)
Definition createReadStream (p : string) : Eff read_stream :=
  fun log =>
    (Ret (match fs !! p with
          | Some File => Readable p
          | Some (Dir _) => Failing p "EISDIR"
          | None => Failing p "ENOENT"
          end), log ++ [CreateReadStream p]).

End Streams.

(** [path.join(a, b, ...)].  The handlers call it with [__dirname], a
    constant directory name and, for an asset, a name that has passed the
    grammar; such a name has no separator and is neither ['.'] nor ['..']
    (lemma [valid_name_is_one_segment]), so normalisation leaves the
    joined path as it is. *)
Definition path_join (segments : list string) : string :=
  String.concat "/" segments.

(** ** jsonwebtoken

    The package is a dependency, not part of the repository; the model
    keeps what the handlers rely on.  Tokens are symbolic: a compact
    serialisation is either not a JWS at all, or a JWS whose HS256 signature
    is valid under exactly one key.

    [jwt.sign(payload, key, {expiresIn: '1h'})] adds to the payload
    [iat = Math.floor(Date.now() / 1000)] and [exp = iat + 3600].

    [jwt.verify(token, key)] throws a [JsonWebTokenError] for a token that is
    missing, not a string or not a JWS, and for a signature that does not
    verify; when the payload has [exp] it throws a [TokenExpiredError] as soon
    as [Math.floor(Date.now() / 1000) >= exp]; otherwise it returns the
    payload.  (Its checks of [nbf], audience and issuer do not apply: the
    source sets and asks for none of them.) *)

Record jwt_payload : Type := {
  authenticated : jsval;
  (** [decoded.timestamp] as a number: [None] when it is not one (the
      field is absent), so that the subtraction gives NaN *)
  timestamp : option Z;
  iat : option Z;
  exp : option Z
}.

Inductive jwt : Type :=
| NotJws (raw : string)
| Jws (signedWith : string) (payload : jwt_payload).

(** [jwt.sign({authenticated, timestamp}, key, {expiresIn: '1h'})] at time
    [now] (milliseconds) *)
Definition jwt_sign (auth : jsval) (ts : Z) (key : string) (now : Z) : jwt :=
  Jws key {| authenticated := auth;
             timestamp := Some ts;
             iat := Some (now / 1000);
             exp := Some (now / 1000 + 3600) |}.

(** [jwt.verify(token, key)] at time [now] (milliseconds); [None] is a
    token that is [undefined] *)
Definition jwt_verify (token : option jwt) (key : string) (now : Z)
  : outcome jwt_payload :=
  match token with
  | None => Throw (JsonWebTokenError "jwt must be provided")
  | Some (NotJws _) => Throw (JsonWebTokenError "jwt malformed")
  | Some (Jws k p) =>
      if negb (String.eqb k key) then Throw (JsonWebTokenError "invalid signature")
      else match exp p with
           | Some e => if now / 1000 >=? e then Throw TokenExpiredError else Ret p
           | None => Ret p
           end
  end.

(** ** Requests and responses *)

Unset Elimination Schemes.
Inductive json : Type :=
| JsBool (b : bool)
| JsNum (n : Z)
| JsStr (s : string)
| JsToken (t : jwt)
| JsArr (items : list json)
| JsObj (fields : list (string * json)).
Set Elimination Schemes.

Fixpoint assoc (k : string) (fields : list (string * json)) : option json :=
  match fields with
  | [] => None
  | (k', v) :: rest => if String.eqb k' k then Some v else assoc k rest
  end.

Definition field (k : string) (j : json) : option json :=
  match j with
  | JsObj fields => assoc k fields
  | _ => None
  end.

(** What is sent: a JSON value, the content of the file at a path, or
    nothing at all. *)
Inductive body : Type :=
| Json (j : json)
| Piped (stream : string)
| NoReply.

Record response : Type := {
  status : Z;
  headers : list (string * string);
  payload : body
}.

(** The client gets no response: the process has exited and the connection
    is closed.  [status] 0 is no HTTP status; it stands for that. *)
Definition no_response : response :=
  {| status := 0; headers := []; payload := NoReply |}.

(** [fileStream.pipe(res)], with the headers set on [res] so far.  A
    readable stream is sent with status 200.  The ['error'] event of a failing
    stream has no listener in the source: it is an uncaught exception, outside
    the [try] of the handler, the process exits, and nothing is sent. *)
Definition pipe (fileStream : read_stream) (hdrs : list (string * string)) : response :=
  match fileStream with
  | Readable p => {| status := 200; headers := hdrs; payload := Piped p |}
  | Failing _ _ => no_response
  end.

(** [res.json(j)] *)
Definition res_json (j : json) : response :=
  {| status := 200; headers := []; payload := Json j |}.
(** [res.status(code).json(j)] *)
Definition res_status_json (code : Z) (j : json) : response :=
  {| status := code; headers := []; payload := Json j |}.

Definition error_json (msg : string) : json := JsObj [("error", JsStr msg)].

(** The error-handling middleware, which Express runs when a handler
    throws. *)
Definition error_middleware : response :=
  res_status_json 500 (error_json "Something went wrong!").

Definition express_run (h : Eff response) : response * list fs_event :=
  match h [] with
  | (Ret r, log) => (r, log)
  | (Throw _, log) => (error_middleware, log)
  end.

(** The configuration of the process: [process.env.PDF_PASSWORD],
    [process.env.JWT_SECRET], the constant [SERVE_PNGS_FOR_IOS] (true when
    the variable of that name is the string 'true'; the first variant has no
    such constant and does not read the field) and [__dirname]. *)
Record config : Type := {
  PDF_PASSWORD : string;
  JWT_SECRET : string;
  SERVE_PNGS_FOR_IOS : bool;
  dirname : string
}.

(** [req.body] of [POST /auth] *)
Record auth_body : Type := {
  password : jsval;
  isIOS : jsval;
  pdfFilename : jsval
}.

(** [GET /pdf/:filename]: the route parameter [req.params.filename], and
    [token], the value of
    [req.headers.authorization?.replace('Bearer ', '') || req.query.token]:
    [None] when that value is [undefined] or the empty string, [NotJws] when
    it is anything else that is not a JWS. *)
Record fetch_request : Type := {
  filename : string;
  token : option jwt
}.

(** [/^[a-zA-Z0-9\-_\.]+\.pdf$/] *)
Definition name_class : list Regex.cls_item :=
  [Regex.Range "a" "z"; Regex.Range "A" "Z"; Regex.Range "0" "9";
   Regex.One "-"; Regex.One "_"; Regex.One "."]%char.

Definition pdf_name_re : Regex.re :=
  Regex.Cat (Regex.Plus (Regex.Class name_class)) (Regex.Lit (Str.chars ".pdf")).

(** [filename.match(/^[a-zA-Z0-9\-_\.]+\.pdf$/)] is not null *)
Definition filename_matches (name : string) : bool :=
  Regex.accepts pdf_name_re (Str.chars name).

(** [/-(\d+)\.png$/] *)
Definition page_re : Regex.re :=
  Regex.Cat (Regex.Class [Regex.One "-"%char])
    (Regex.Cat (Regex.Plus (Regex.Class [Regex.Range "0" "9"]%char))
       (Regex.Lit (Str.chars ".png"))).

(** [a.match(/-(\d+)\.png$/)?.[1]]: the text of the group, between the
    ['-'] and the ['.png'] of the match *)
Definition page_group (a : string) : option (list ascii) :=
  match Regex.search_suffix page_re (Str.chars a) with
  | Some m => Some (firstn (length m - 5) (skipn 1 m))
  | None => None
  end.

(** [parseInt(a.match(/-(\d+)\.png$/)?.[1] || '0')] *)
Definition page_number (a : string) : Z :=
  match page_group a with
  | Some ds => Str.parseInt_digits ds
  | None => Str.parseInt_digits (Str.chars "0")
  end.

(** [Array.prototype.sort(cmp)]: the sort is stable, so for a comparator
    that orders by a key its result is that of the insertion sort below. *)
Section Sort.
Context {A : Type} (cmp : A -> A -> Z).

Fixpoint sort_insert (x : A) (l : list A) : list A :=
  match l with
  | [] => [x]
  | y :: l' => if cmp x y <=? 0 then x :: y :: l' else y :: sort_insert x l'
  end.

Definition js_sort (l : list A) : list A := fold_right sort_insert [] l.
End Sort.

(** [Date.now() - decoded.timestamp > 3600000]; a comparison with NaN is
    false.  The clock is read once per run of a handler. *)
Definition token_age_exceeds (now : Z) (ts : option Z) : bool :=
  match ts with
  | Some t => now - t >? 3600000
  | None => false
  end.

Definition auth_ok_fields (t : jwt) : list (string * json) :=
  [("success", JsBool true); ("token", JsToken t); ("expiresIn", JsNum 3600)].

Definition auth_denied : response :=
  res_status_json 401
    (JsObj [("success", JsBool false); ("message", JsStr "Invalid password")]).

(** [rateLimit({windowMs, max, message})] *)
Record rate_limit_options : Type := {
  windowMs : Z;
  max : Z;
  message : string
}.

(** ** First variant of [server.js] *)

Module V1.

Definition limiter : rate_limit_options :=
  {| windowMs := 15 * 60 * 1000; max := 100;
     message := "Too many requests from this IP, please try again later." |}.

Definition pdfLimiter : rate_limit_options :=
  {| windowMs := 5 * 60 * 1000; max := 10;
     message := "Too many PDF requests, please try again later." |}.

(** [app.post('/auth', ...)] *)
Definition post_auth (cfg : config) (now : Z) (b : auth_body) : Eff response :=
  if strict_eq_string (password b) (PDF_PASSWORD cfg) then
    let token := jwt_sign (JBool true) now (JWT_SECRET cfg) now in
    ret (res_json (JsObj (auth_ok_fields token)))
  else
    ret auth_denied.

(** [app.get('/pdf/:filename', pdfLimiter, ...)], after the limiter has
    let the request through *)
Definition get_pdf (cfg : config) (fs : gmap string fs_node) (now : Z)
    (req : fetch_request) : Eff response :=
  try_catch
    (do decoded <- lift (jwt_verify (token req) (JWT_SECRET cfg) now);
     if negb (truthy (authenticated decoded)) then
       ret (res_status_json 401 (error_json "Unauthorized"))
     else if token_age_exceeds now (timestamp decoded) then
       ret (res_status_json 401 (error_json "Token expired"))
     else if negb (filename_matches (filename req)) then
       ret (res_status_json 400 (error_json "Invalid filename"))
     else
       let filePath := path_join [dirname cfg; "pdfs"; filename req] in
       do found <- existsSync fs filePath;
       if negb found then
         ret (res_status_json 404 (error_json "PDF not found"))
       else
         let securityHeaders :=
           [("Content-Type", "application/pdf");
            ("Cache-Control", "no-cache, no-store, must-revalidate");
            ("Pragma", "no-cache");
            ("Expires", "0");
            ("X-Robots-Tag", "noindex, nofollow, noarchive, nosnippet")] in
         do fileStream <- createReadStream fs filePath;
         ret (pipe fileStream securityHeaders))
    (fun error => ret (res_status_json 401 (error_json "Invalid token"))).

End V1.

(** ** Second variant of [server.js] *)

(** The one-character string holding a double quote. *)
Definition dquote : string := String (ascii_of_nat 34) EmptyString.

Module V2.

Definition limiter : rate_limit_options :=
  {| windowMs := 15 * 60 * 1000; max := 100;
     message := "Too many requests from this IP, please try again later." |}.

Definition pdfLimiter : rate_limit_options :=
  {| windowMs := 5 * 60 * 1000; max := 100;
     message := "Too many PDF requests, please try again later." |}.

(** The filter of [getPngListForPdf] *)
Definition is_page_of (baseName file : string) : bool :=
  Str.startsWith file (baseName +:+ "-") && Str.endsWith file ".png".

(** The comparator of [getPngListForPdf].  [sort] only looks at the sign of
    its result, and the difference of two doubles has the sign of the exact
    difference; [Infinity - Infinity] is NaN, which [sort] takes as 0, as is
    the difference of the two equal integers that stand for [Infinity]. *)
Definition by_page (a b : string) : Z := page_number a - page_number b.

(** [getPngListForPdf(pdfFilename)]; a value without a [replace] method
    makes the first line throw. *)
Definition getPngListForPdf (cfg : config) (fs : gmap string fs_node)
    (pdfFilename : jsval) : Eff (list string) :=
  match pdfFilename with
  | JStr name =>
      let baseName := Str.replace_first ".pdf" "" name in
      let pngsDir := path_join [dirname cfg; "pngs"] in
      do present <- existsSync fs pngsDir;
      if negb present then ret []
      else
        do files <- readdirSync fs pngsDir;
        ret (js_sort by_page (List.filter (fun file => is_page_of baseName file) files))
  | _ => throw (TypeError "pdfFilename.replace is not a function")
  end.

(** [app.post('/auth', ...)] *)
Definition post_auth (cfg : config) (fs : gmap string fs_node) (now : Z)
    (b : auth_body) : Eff response :=
  if strict_eq_string (password b) (PDF_PASSWORD cfg) then
    let token := jwt_sign (JBool true) now (JWT_SECRET cfg) now in
    let standard := res_json (JsObj (auth_ok_fields token)) in
    let shouldServePngs :=
      SERVE_PNGS_FOR_IOS cfg && truthy (isIOS b) && truthy (pdfFilename b) in
    if shouldServePngs then
      do pngFiles <- getPngListForPdf cfg fs (pdfFilename b);
      if (0 <? length pngFiles)%nat then
        ret (res_json (JsObj (auth_ok_fields token ++
                                [("usePngMode", JsBool true);
                                 ("pngFiles", JsArr (map JsStr pngFiles))])))
      else ret standard
    else ret standard
  else
    ret auth_denied.

(** [app.get('/pdf/:filename', pdfLimiter, ...)], after the limiter has
    let the request through *)
Definition get_pdf (cfg : config) (fs : gmap string fs_node) (now : Z)
    (req : fetch_request) : Eff response :=
  try_catch
    (do decoded <- lift (jwt_verify (token req) (JWT_SECRET cfg) now);
     if negb (truthy (authenticated decoded)) then
       ret (res_status_json 401 (error_json "Unauthorized"))
     else if token_age_exceeds now (timestamp decoded) then
       ret (res_status_json 401 (error_json "Token expired"))
     else if negb (filename_matches (filename req)) then
       ret (res_status_json 400 (error_json "Invalid filename"))
     else
       let filePath := path_join [dirname cfg; "pdfs"; filename req] in
       do found <- existsSync fs filePath;
       if negb found then
         ret (res_status_json 404 (error_json "PDF not found"))
       else
         let securityHeaders :=
           [("Content-Type", "application/pdf");
            ("Content-Disposition",
             "inline; filename=" +:+ dquote +:+ filename req +:+ dquote);
            ("Cache-Control", "no-cache, no-store, must-revalidate");
            ("Pragma", "no-cache");
            ("Expires", "0");
            ("X-Robots-Tag", "noindex, nofollow, noarchive, nosnippet")] in
         do fileStream <- createReadStream fs filePath;
         ret (pipe fileStream securityHeaders))
    (fun error => ret (res_status_json 401 (error_json "Invalid token"))).

End V2.

(** ** The rate limiter

    [server.js] only configures [express-rate-limit] ([limiter] and
    [pdfLimiter] above); the counting itself is in that package. *)

Module RateLimiter.

Inductive route_class : Type := General | Asset.

#[global] Instance route_class_eq_dec : EqDecision route_class.
Proof. solve_decision. Defined.

#[global] Instance route_class_countable : Countable route_class.
Proof.
  refine (inj_countable'
            (fun r => match r with General => false | Asset => true end)
            (fun b => if b then Asset else General) _).
  intros []; reflexivity.
Defined.

Record RateWindow : Type := {
  startedAt : Z;
  count : Z
}.

(** The (windowWidth, maxCount) pair of a route class, from the options
    the source passes to [rateLimit]. *)
Definition limits_of (general asset : rate_limit_options) (rc : route_class)
  : Z * Z :=
  match rc with
  | General => (windowMs general, max general)
  | Asset => (windowMs asset, max asset)
  end.

(** Modelled from the spec: the counting of [express-rate-limit], which is
    not part of the source.  "If no window exists or the existing window's
    age exceeds windowWidth, start a fresh window with count=1 and allow.
    Otherwise increment; allow if the incremented count ≤ maxCount, else
    deny." *)
Definition allow (limits : route_class -> Z * Z) (now : Z)
    (identity : string) (rc : route_class)
    (table : gmap (string * route_class) RateWindow)
  : bool * gmap (string * route_class) RateWindow :=
  let '(windowWidth, maxCount) := limits rc in
  let fresh := (true, <[(identity, rc) := {| startedAt := now; count := 1 |}]> table) in
  match table !! (identity, rc) with
  | None => fresh
  | Some w =>
      if now - startedAt w >? windowWidth then fresh
      else
        let n := count w + 1 in
        (n <=? maxCount,
         <[(identity, rc) := {| startedAt := startedAt w; count := n |}]> table)
  end.

(** A run of calls for one key, at the given times. *)
Fixpoint allow_all (limits : route_class -> Z * Z) (identity : string)
    (rc : route_class) (times : list Z)
    (table : gmap (string * route_class) RateWindow)
  : list bool * gmap (string * route_class) RateWindow :=
  match times with
  | [] => ([], table)
  | t :: times' =>
      let '(ok, table') := allow limits t identity rc table in
      let '(oks, table'') := allow_all limits identity rc times' table' in
      (ok :: oks, table'')
  end.

End RateLimiter.

(** ** The vocabulary of the specification *)

(** The grammar [^[A-Za-z0-9._-]+\.pdf$], read as a full-string match: a
    non-empty stem of grammar characters, followed by [.pdf] and nothing
    else. *)
Definition between (lo hi c : ascii) : bool :=
  (N_of_ascii lo <=? N_of_ascii c)%N && (N_of_ascii c <=? N_of_ascii hi)%N.

Definition name_char (c : ascii) : bool :=
  between "A" "Z" c || between "a" "z" c || between "0" "9" c
  || Ascii.eqb c "." || Ascii.eqb c "_" || Ascii.eqb c "-".

Definition in_grammar (name : string) : Prop :=
  exists stem,
    stem <> [] /\ Forall (fun c => name_char c = true) stem /\
    Str.chars name = stem ++ Str.chars ".pdf".

(** A name with a leading [..] path segment: the name [..] itself, or [..]
    followed by a separator. *)
Definition leading_dotdot (name : string) : Prop :=
  name = ".." \/ String.prefix "../" name = true \/ String.prefix "..\" name = true.

Definition contains (c : ascii) (name : string) : Prop := In c (Str.chars name).

(** The responses of [GET /pdf/:filename] that the claims name. *)
Definition invalid_name : response := res_status_json 400 (error_json "Invalid filename").
Definition not_found : response := res_status_json 404 (error_json "PDF not found").
Definition unauthorized (msg : string) : response := res_status_json 401 (error_json msg).

(** The token checks of [GET /pdf/:filename] let the request through. *)
Definition token_accepted (cfg : config) (now : Z) (tok : option jwt) : bool :=
  match jwt_verify tok (JWT_SECRET cfg) now with
  | Ret decoded =>
      truthy (authenticated decoded) && negb (token_age_exceeds now (timestamp decoded))
  | Throw _ => false
  end.

(** The storage key of a primary asset. *)
Definition pdf_path (cfg : config) (name : string) : string :=
  path_join [dirname cfg; "pdfs"; name].

(** The two variants of the source have the same routes; a statement
    about both quantifies over [variant]. *)
Inductive variant : Type := First | Second.

Definition get_pdf (v : variant) : config -> gmap string fs_node -> Z -> fetch_request -> Eff response :=
  match v with
  | First => V1.get_pdf
  | Second => V2.get_pdf
  end.

Definition post_auth (v : variant) (cfg : config) (fs : gmap string fs_node) (now : Z)
    (b : auth_body) : Eff response :=
  match v with
  | First => V1.post_auth cfg now b
  | Second => V2.post_auth cfg fs now b
  end.

(** What the client of [GET /pdf/:filename] sees, and the storage calls made
    for it. *)
Definition fetch (v : variant) (cfg : config) (fs : gmap string fs_node) (now : Z)
    (req : fetch_request) : response * list fs_event :=
  express_run (get_pdf v cfg fs now req).

(** What the client of [POST /auth] sees, and the storage calls made for it. *)
Definition login (v : variant) (cfg : config) (fs : gmap string fs_node) (now : Z)
    (b : auth_body) : response * list fs_event :=
  express_run (post_auth v cfg fs now b).

(** The token a login at time [t] issues. *)
Definition issued_token (cfg : config) (t : Z) : jwt :=
  jwt_sign (JBool true) t (JWT_SECRET cfg) t.

(** A request is past the token checks when its response is not one of the
    401 responses: the later steps answer 400, 404 or 200. *)
Definition past_token_check (r : response) : Prop := status r <> 401.

(** The ways a token can fail, in the words of the specification. *)
Inductive TokenError : Type := Malformed | BadSignature | NotAuthenticated | Expired.

(** The first check of [GET /pdf/:filename] that a token fails, if any:
    [jwt.verify] (shape, signature, then [exp]), then the [authenticated]
    flag, then the age of [timestamp]. *)
Definition token_failure (cfg : config) (now : Z) (tok : option jwt) : option TokenError :=
  match tok with
  | None | Some (NotJws _) => Some Malformed
  | Some (Jws k p) =>
      if negb (String.eqb k (JWT_SECRET cfg)) then Some BadSignature
      else if match exp p with Some e => now / 1000 >=? e | None => false end
           then Some Expired
      else if negb (truthy (authenticated p)) then Some NotAuthenticated
      else if token_age_exceeds now (timestamp p) then Some Expired
      else None
  end.

(** The headers of a served PDF. *)
Definition pdf_headers (v : variant) (name : string) : list (string * string) :=
  match v with
  | First =>
      [("Content-Type", "application/pdf");
       ("Cache-Control", "no-cache, no-store, must-revalidate");
       ("Pragma", "no-cache");
       ("Expires", "0");
       ("X-Robots-Tag", "noindex, nofollow, noarchive, nosnippet")]
  | Second =>
      [("Content-Type", "application/pdf");
       ("Content-Disposition", "inline; filename=" +:+ dquote +:+ name +:+ dquote);
       ("Cache-Control", "no-cache, no-store, must-revalidate");
       ("Pragma", "no-cache");
       ("Expires", "0");
       ("X-Robots-Tag", "noindex, nofollow, noarchive, nosnippet")]
  end.

(** A deployment used in the examples: one PDF, and the pages of
    [report.pdf] in the order a directory listing may give them. *)
Definition demo_config : config :=
  {| PDF_PASSWORD := "hunter2"; JWT_SECRET := "signing-key";
     SERVE_PNGS_FOR_IOS := true; dirname := "/app" |}.

Definition demo_fs : gmap string fs_node :=
  <["/app/pdfs/valid.pdf" := File]>
    (<["/app/pngs" := Dir ["report-2.png"; "report-1.png"; "report-10.png"]]> ∅).

(** A name of the form [<anything>-<digits>.png], with at least one digit. *)
Definition numbered (a : string) (digits : list ascii) : Prop :=
  digits <> [] /\ Forall (fun c => Str.is_digit c = true) digits /\
  exists front, Str.chars a = front ++ "-"%char :: digits ++ Str.chars ".png".

(** The directory of the page images. *)
Definition pngs_dir (cfg : config) : string := path_join [dirname cfg; "pngs"].


(** The two success responses of [POST /auth]. *)
Definition standard_response (t : jwt) : response := res_json (JsObj (auth_ok_fields t)).

Definition png_response (t : jwt) (pngFiles : list string) : response :=
  res_json (JsObj (auth_ok_fields t ++
                     [("usePngMode", JsBool true);
                      ("pngFiles", JsArr (map JsStr pngFiles))])).

(** The login succeeded: status 200 and a body with [success: true], the
    token and [expiresIn: 3600]. *)
Definition login_succeeded (r : response) (t : jwt) : Prop :=
  status r = 200 /\
  exists j, payload r = Json j /\
    field "success" j = Some (JsBool true) /\
    field "token" j = Some (JsToken t) /\
    field "expiresIn" j = Some (JsNum 3600).

(** PNG mode is requested: the server flag, the client's [isIOS] and a
    primary file name. *)
Definition png_mode_requested (cfg : config) (b : auth_body) : bool :=
  SERVE_PNGS_FOR_IOS cfg && truthy (isIOS b) && truthy (pdfFilename b).

(** The manifest can be computed for a login: when PNG mode is requested
    (which only the second variant knows), the file name of the body is a
    string, as the interface gives it, and the path of the page directory is
    not taken by a file. *)
Definition manifest_computable (v : variant) (cfg : config) (fs : gmap string fs_node)
    (b : auth_body) : Prop :=
  match v with
  | First => True
  | Second =>
      png_mode_requested cfg b = true ->
      (exists name, pdfFilename b = JStr name) /\ fs !! pngs_dir cfg <> Some File
  end.

(** ** The PNG route of the second variant *)

(** [/^[a-zA-Z0-9\-_\.]+\.png$/] *)
Definition png_name_re : Regex.re :=
  Regex.Cat (Regex.Plus (Regex.Class name_class)) (Regex.Lit (Str.chars ".png")).

(** [filename.match(/^[a-zA-Z0-9\-_\.]+\.png$/)] is not null *)
Definition png_filename_matches (name : string) : bool :=
  Regex.accepts png_name_re (Str.chars name).

(** [app.get('/png/:filename', pdfLimiter, ...)] of the second variant, after
    the limiter has let the request through *)
Definition get_png (cfg : config) (fs : gmap string fs_node) (now : Z)
    (req : fetch_request) : Eff response :=
  try_catch
    (do decoded <- lift (jwt_verify (token req) (JWT_SECRET cfg) now);
     if negb (truthy (authenticated decoded)) then
       ret (res_status_json 401 (error_json "Unauthorized"))
     else if token_age_exceeds now (timestamp decoded) then
       ret (res_status_json 401 (error_json "Token expired"))
     else if negb (png_filename_matches (filename req)) then
       ret (res_status_json 400 (error_json "Invalid filename"))
     else
       let filePath := path_join [dirname cfg; "pngs"; filename req] in
       do found <- existsSync fs filePath;
       if negb found then
         ret (res_status_json 404 (error_json "PNG not found"))
       else
         let securityHeaders :=
           [("Content-Type", "image/png");
            ("Cache-Control", "private, max-age=3600");
            ("X-Robots-Tag", "noindex, nofollow, noarchive, nosnippet")] in
         do fileStream <- createReadStream fs filePath;
         ret (pipe fileStream securityHeaders))
    (fun error => ret (res_status_json 401 (error_json "Invalid token"))).

(** What the client of [GET /png/:filename] sees, and the storage calls made
    for it. *)
Definition fetch_png (cfg : config) (fs : gmap string fs_node) (now : Z)
    (req : fetch_request) : response * list fs_event :=
  express_run (get_png cfg fs now req).

(** The storage key of a page image. *)
Definition png_path (cfg : config) (name : string) : string :=
  path_join [dirname cfg; "pngs"; name].

(** The grammar of the PNG route, read as for [in_grammar]. *)
Definition in_png_grammar (name : string) : Prop :=
  exists stem,
    stem <> [] /\ Forall (fun c => name_char c = true) stem /\
    Str.chars name = stem ++ Str.chars ".png".

(** ** The token of a request, and the configuration read at start-up *)

(** [req.headers.authorization?.replace('Bearer ', '') || req.query.token]:
    the header is a string or is absent; the query parameter is whatever the
    query string parser made of it. *)
Definition extract_token (authorization : option string) (query_token : jsval) : jsval :=
  match authorization with
  | None => query_token
  | Some h =>
      let bearer := JStr (Str.replace_first "Bearer " "" h) in
      if truthy bearer then bearer else query_token
  end.

(** [s.split(sep)] for a separator of one character, on characters. *)
Fixpoint split_chars (sep : ascii) (w : list ascii) : list (list ascii) :=
  match w with
  | [] => [[]]
  | c :: w' =>
      if Ascii.eqb c sep then [] :: split_chars sep w'
      else match split_chars sep w' with
           | [] => [[c]]
           | piece :: pieces => (c :: piece) :: pieces
           end
  end.

Definition js_split (sep : ascii) (s : string) : list string :=
  map Str.of_chars (split_chars sep (Str.chars s)).

(** [process.env.ALLOWED_ORIGINS?.split(',') || ['https://URL.info']], the
    [origin] option of the CORS middleware in both variants; an array is
    truthy even when it is empty. *)
Definition allowed_origins (ALLOWED_ORIGINS : option string) : list string :=
  match ALLOWED_ORIGINS with
  | Some s => js_split "," s
  | None => ["https://URL.info"]
  end.

(** [process.env.SERVE_PNGS_FOR_IOS === 'true' || false] *)
Definition serve_pngs_flag (env_value : option string) : bool :=
  match env_value with
  | Some s => String.eqb s "true" || false
  | None => false
  end.

(** The value of a response header. *)
Fixpoint header_value (k : string) (hs : list (string * string)) : option string :=
  match hs with
  | [] => None
  | (k', v) :: rest => if String.eqb k' k then Some v else header_value k rest
  end.

(** The headers of a served page image. *)
Definition png_headers : list (string * string) :=
  [("Content-Type", "image/png");
   ("Cache-Control", "private, max-age=3600");
   ("X-Robots-Tag", "noindex, nofollow, noarchive, nosnippet")].

(** [a] comes before [b] in [l]. *)
Definition occurs_before {A : Type} (a b : A) (l : list A) : Prop :=
  exists l1 l2 l3, l = l1 ++ a :: l2 ++ b :: l3.

(** [pieces.join(sep)], on characters. *)
Fixpoint join_chars (sep : ascii) (pieces : list (list ascii)) : list ascii :=
  match pieces with
  | [] => []
  | [piece] => piece
  | piece :: rest => piece ++ sep :: join_chars sep rest
  end.

(** [pat] occurs in [s]. *)
Definition occurs_in (pat s : string) : Prop :=
  exists before after, s = before +:+ pat +:+ after.


(** * Properties *)

(** ** The derivative matcher agrees with [Matches] *)

Section RegexFacts.
Import Regex.

Lemma Matches_nil_nullable r : Matches r [] -> nullable r = true.
Proof.
  intros H. remember (@nil ascii) as w eqn:Hw.
  induction H; simpl; try reflexivity; try discriminate.
  - apply app_eq_nil in Hw as [-> ->].
    rewrite IHMatches1, IHMatches2; reflexivity.
  - rewrite IHMatches; auto.
  - rewrite IHMatches; auto using orb_true_r.
Qed.

Lemma nullable_Matches_nil r : nullable r = true -> Matches r [].
Proof.
  induction r; simpl; intros H; try discriminate.
  - constructor.
  - apply andb_true_iff in H as [H1 H2].
    change (@nil ascii) with (@nil ascii ++ []). constructor; auto.
  - apply orb_true_iff in H as [H1 | H2]; [apply MAltL | apply MAltR]; auto.
  - constructor.
Qed.

Lemma Matches_Cat_inv r s w :
  Matches (Cat r s) w -> exists u v, w = u ++ v /\ Matches r u /\ Matches s v.
Proof. intros H. inversion H; subst. eauto. Qed.

Lemma Matches_Alt_inv r s w : Matches (Alt r s) w -> Matches r w \/ Matches s w.
Proof. intros H. inversion H; subst; auto. Qed.

Lemma Matches_Cat_cons r s c w :
  Matches (Cat r s) (c :: w) ->
  (exists u v, w = u ++ v /\ Matches r (c :: u) /\ Matches s v)
  \/ (Matches r [] /\ Matches s (c :: w)).
Proof.
  intros H. apply Matches_Cat_inv in H as (u & v & Hw & Hu & Hv).
  destruct u as [|a u]; simpl in Hw.
  - right. subst v. auto.
  - left. injection Hw as <- ->. eauto.
Qed.

Lemma Matches_Star_cons r c w :
  Matches (Star r) (c :: w) ->
  exists u v, w = u ++ v /\ Matches r (c :: u) /\ Matches (Star r) v.
Proof.
  intros H. remember (Star r) as sr eqn:Hsr. remember (c :: w) as cw eqn:Hcw.
  induction H as [| | | | | |r' u v Hu _ Hv IHv]; try discriminate.
  injection Hsr as ->.
  destruct u as [|a u]; simpl in Hcw.
  - apply IHv; auto.
  - injection Hcw as -> <-. eauto.
Qed.

Lemma Matches_cons_app r s c u v :
  Matches r (c :: u) -> Matches s v -> Matches (Cat r s) (c :: u ++ v).
Proof. intros Hu Hv. change (c :: u ++ v) with ((c :: u) ++ v). constructor; auto. Qed.

Lemma deriv_Matches c r w : Matches (deriv c r) w <-> Matches r (c :: w).
Proof.
  revert w. induction r as [| |items|r IHr s IHs|r IHr s IHs|r IHr]; intros w; simpl.
  - split; intros H; inversion H.
  - split; intros H; inversion H.
  - destruct (cls_has items c) eqn:Hc; split; intros H; inversion H; subst.
    + constructor; assumption.
    + constructor.
    + congruence.
  - split.
    + intros H. destruct (nullable r) eqn:Hn.
      * apply Matches_Alt_inv in H as [H | H].
        -- apply Matches_Cat_inv in H as (u & v & -> & Hu & Hv).
           apply Matches_cons_app; auto. apply IHr, Hu.
        -- apply IHs in H. change (c :: w) with ([] ++ c :: w).
           constructor; auto using nullable_Matches_nil.
      * apply Matches_Cat_inv in H as (u & v & -> & Hu & Hv).
        apply Matches_cons_app; auto. apply IHr, Hu.
    + intros H. apply Matches_Cat_cons in H as [(u & v & -> & Hu & Hv) | [Hn Hs]].
      * apply IHr in Hu. destruct (nullable r); [apply MAltL|]; constructor; auto.
      * rewrite (Matches_nil_nullable _ Hn). apply MAltR, IHs, Hs.
  - split; intros H; apply Matches_Alt_inv in H as [H | H].
    + apply MAltL, IHr; auto.
    + apply MAltR, IHs; auto.
    + apply MAltL, IHr; auto.
    + apply MAltR, IHs; auto.
  - split.
    + intros H. apply Matches_Cat_inv in H as (u & v & -> & Hu & Hv).
      change (c :: u ++ v) with ((c :: u) ++ v). constructor; auto. apply IHr, Hu.
    + intros H. apply Matches_Star_cons in H as (u & v & -> & Hu & Hv).
      constructor; auto. apply IHr, Hu.
Qed.

Lemma accepts_Matches r w : accepts r w = true <-> Matches r w.
Proof.
  revert r. induction w as [|c w IH]; intros r; simpl.
  - split; auto using nullable_Matches_nil, Matches_nil_nullable.
  - rewrite IH. apply deriv_Matches.
Qed.

Lemma Matches_Lit cs w : Matches (Lit cs) w <-> w = cs.
Proof.
  revert w. induction cs as [|c cs IH]; intros w; simpl.
  - split; intros H; [inversion H; reflexivity | subst; constructor].
  - split.
    + intros H. inversion H as [| |r s u v Hu Hv| | | |]; subst.
      inversion Hu as [|items a Ha| | | | |]; subst.
      apply IH in Hv. subst. simpl in Ha. rewrite orb_false_r in Ha.
      apply Ascii.eqb_eq in Ha. subst. reflexivity.
    + intros ->. change (c :: cs) with ([c] ++ cs). constructor.
      * constructor. simpl. rewrite Ascii.eqb_refl. reflexivity.
      * apply IH. reflexivity.
Qed.

Lemma Matches_Star_Class items w :
  Matches (Star (Class items)) w <-> Forall (fun c => cls_has items c = true) w.
Proof.
  split.
  - intros H. remember (Star (Class items)) as sr eqn:Hsr.
    induction H as [| | | | | |r u v Hu _ Hv IHv]; try discriminate.
    + constructor.
    + injection Hsr as ->. inversion Hu; subst. constructor; auto.
  - induction 1 as [|c w Hc _ IH].
    + constructor.
    + change (c :: w) with ([c] ++ w). constructor; auto. constructor; auto.
Qed.

Lemma Matches_Plus_Class items w :
  Matches (Plus (Class items)) w <->
  w <> [] /\ Forall (fun c => cls_has items c = true) w.
Proof.
  unfold Plus. split.
  - intros H. inversion H as [| |r s u v Hu Hv| | | |]; subst.
    inversion Hu; subst. apply Matches_Star_Class in Hv.
    split; [discriminate | constructor; auto].
  - intros [Hne Hall]. destruct Hall as [|c w Hc Hw]; [congruence|].
    change (c :: w) with ([c] ++ w). constructor.
    + constructor; auto.
    + apply Matches_Star_Class; auto.
Qed.

End RegexFacts.

(** ** Strings *)

Section StringFacts.

Lemma chars_append s t : Str.chars (s +:+ t) = Str.chars s ++ Str.chars t.
Proof.
  unfold Str.chars. induction s as [|c s IH]; simpl; [reflexivity|].
  rewrite IH. reflexivity.
Qed.

Lemma prefix_chars p s :
  String.prefix p s = true -> exists rest, Str.chars s = Str.chars p ++ rest.
Proof.
  unfold Str.chars. revert s. induction p as [|a p IH]; intros s H; simpl in *.
  - eauto.
  - destruct s as [|b s]; simpl in H; [discriminate|].
    destruct (ascii_dec a b) as [->|]; [|discriminate].
    apply IH in H as [rest Hrest]. exists rest. simpl. rewrite Hrest. reflexivity.
Qed.

Lemma chars_prefix p s rest :
  Str.chars s = Str.chars p ++ rest -> String.prefix p s = true.
Proof.
  unfold Str.chars. revert s. induction p as [|a p IH]; intros s H; simpl in *.
  - destruct s; reflexivity.
  - destruct s as [|b s]; [discriminate|]. simpl in H. injection H as -> H.
    simpl. destruct (ascii_dec a a); [|congruence]. apply IH, H.
Qed.

Lemma list_prefix_app p l : Str.list_prefix p (p ++ l) = true.
Proof.
  induction p as [|a p IH]; simpl; [reflexivity|].
  rewrite Ascii.eqb_refl. exact IH.
Qed.

Lemma list_prefix_inv p l :
  Str.list_prefix p l = true -> exists rest, l = p ++ rest.
Proof.
  revert l. induction p as [|a p IH]; intros l H; simpl in *.
  - eauto.
  - destruct l as [|b l]; [discriminate|].
    apply andb_true_iff in H as [Hab H]. apply Ascii.eqb_eq in Hab as ->.
    apply IH in H as [rest ->]. eauto.
Qed.

Lemma endsWith_chars s p :
  Str.endsWith s p = true <-> exists front, Str.chars s = front ++ Str.chars p.
Proof.
  unfold Str.endsWith. split.
  - intros H. apply list_prefix_inv in H as [rest Hrest].
    exists (rev rest). apply (f_equal (@rev ascii)) in Hrest.
    rewrite rev_involutive, rev_app_distr, rev_involutive in Hrest. exact Hrest.
  - intros [front ->]. rewrite rev_app_distr. apply list_prefix_app.
Qed.

End StringFacts.

(** ** The grammar of asset names *)

Section Grammar.
Import Regex.

(** The character class of the source, [[a-zA-Z0-9\-_\.]], is the class
    of the specification, [[A-Za-z0-9._-]]. *)
Lemma name_class_chars c : cls_has name_class c = name_char c.
Proof. destruct c as [[] [] [] [] [] [] [] []]; reflexivity. Qed.

Lemma Forall_name_class w :
  Forall (fun c => cls_has name_class c = true) w <->
  Forall (fun c => name_char c = true) w.
Proof.
  split; intros H; (eapply List.Forall_impl; [|exact H]); intros c Hc; simpl in Hc;
    [rewrite <- name_class_chars | rewrite name_class_chars]; exact Hc.
Qed.

(** The regular expression of the source, run as a full-string match, is
    the grammar of the specification. *)
Lemma filename_matches_grammar name :
  filename_matches name = true <-> in_grammar name.
Proof.
  unfold filename_matches, in_grammar, pdf_name_re. rewrite accepts_Matches. split.
  - intros H. apply Matches_Cat_inv in H as (u & v & Hw & Hu & Hv).
    apply Matches_Plus_Class in Hu as [Hne Hall]. apply Matches_Lit in Hv as ->.
    apply Forall_name_class in Hall. exists u. auto.
  - intros (stem & Hne & Hall & ->). apply Forall_name_class in Hall. constructor.
    + apply Matches_Plus_Class. auto.
    + apply Matches_Lit. reflexivity.
Qed.

Lemma grammar_all_name_chars name :
  in_grammar name -> Forall (fun c => name_char c = true) (Str.chars name).
Proof.
  intros (stem & _ & Hall & ->). apply Forall_app. split; [exact Hall|].
  repeat constructor.
Qed.

Lemma grammar_excludes_char c name :
  name_char c = false -> contains c name -> ~ in_grammar name.
Proof.
  intros Hc Hin Hg. apply grammar_all_name_chars in Hg.
  rewrite List.Forall_forall in Hg. apply Hg in Hin. congruence.
Qed.

Lemma grammar_ends_with_pdf name :
  in_grammar name -> Str.endsWith name ".pdf" = true.
Proof. intros (stem & _ & _ & H). apply endsWith_chars. eauto. Qed.

Lemma grammar_no_leading_dotdot name : leading_dotdot name -> ~ in_grammar name.
Proof.
  intros [-> | [H | H]] Hg.
  - apply grammar_ends_with_pdf in Hg. discriminate.
  - apply prefix_chars in H as [rest Hrest].
    apply (grammar_excludes_char "/"%char name); auto.
    unfold contains. rewrite Hrest. simpl. auto.
  - apply prefix_chars in H as [rest Hrest].
    apply (grammar_excludes_char "\"%char name); auto.
    unfold contains. rewrite Hrest. simpl. auto.
Qed.

(** A name of the grammar is one path segment, and not a special one, so
    [path.join] has nothing to normalise. *)
Lemma valid_name_is_one_segment name :
  in_grammar name ->
  ~ contains "/"%char name /\ ~ contains "\"%char name /\ name <> "." /\ name <> "..".
Proof.
  intros Hg. repeat split.
  - intros Hin. revert Hg. apply (grammar_excludes_char "/"%char); auto.
  - intros Hin. revert Hg. apply (grammar_excludes_char "\"%char); auto.
  - intros ->. apply grammar_ends_with_pdf in Hg. discriminate.
  - intros ->. apply grammar_ends_with_pdf in Hg. discriminate.
Qed.

End Grammar.

(** ** [GET /pdf/:filename], step by step *)

Section Fetch.
Variables (v : variant) (cfg : config) (fs : gmap string fs_node) (now : Z).

(** The run of the handler, as a decision list. *)
Lemma fetch_run req :
  fetch v cfg fs now req =
    match jwt_verify (token req) (JWT_SECRET cfg) now with
    | Throw _ => (unauthorized "Invalid token", [])
    | Ret decoded =>
        if negb (truthy (authenticated decoded)) then (unauthorized "Unauthorized", [])
        else if token_age_exceeds now (timestamp decoded) then (unauthorized "Token expired", [])
        else if negb (filename_matches (filename req)) then (invalid_name, [])
        else
          let p := pdf_path cfg (filename req) in
          match fs !! p with
          | Some File =>
              ({| status := 200; headers := pdf_headers v (filename req); payload := Piped p |},
               [ExistsSync p; CreateReadStream p])
          | Some (Dir _) => (no_response, [ExistsSync p; CreateReadStream p])
          | None => (not_found, [ExistsSync p])
          end
    end.
Proof.
  unfold fetch, get_pdf, express_run.
  destruct v; unfold V1.get_pdf, V2.get_pdf, try_catch, bind, lift, ret;
    (destruct (jwt_verify (token req) (JWT_SECRET cfg) now) as [decoded|e]; [|reflexivity]);
    (destruct (truthy (authenticated decoded)); simpl; [|reflexivity]);
    (destruct (token_age_exceeds now (timestamp decoded)); simpl; [reflexivity|]);
    (destruct (filename_matches (filename req)); simpl; [|reflexivity]);
    unfold existsSync, createReadStream, pdf_path; simpl;
    (destruct (fs !! path_join [dirname cfg; "pdfs"; filename req]) as [[|entries]|] eqn:Hfs;
     [rewrite bool_decide_eq_true_2 by eauto
     |rewrite bool_decide_eq_true_2 by eauto
     |rewrite bool_decide_eq_false_2 by (intros [? ?]; discriminate)]);
    reflexivity.
Qed.

Lemma token_failure_accepted tok :
  token_failure cfg now tok = None <-> token_accepted cfg now tok = true.
Proof.
  unfold token_failure, token_accepted, jwt_verify.
  destruct tok as [[raw|k p]|]; try (split; discriminate).
  destruct (negb (String.eqb k (JWT_SECRET cfg))); [split; discriminate|].
  destruct (exp p) as [e|].
  - destruct (now / 1000 >=? e); [split; discriminate|].
    destruct (truthy (authenticated p)); simpl; [|split; discriminate].
    destruct (token_age_exceeds now (timestamp p)); simpl; split; congruence.
  - destruct (truthy (authenticated p)); simpl; [|split; discriminate].
    destruct (token_age_exceeds now (timestamp p)); simpl; split; congruence.
Qed.

(** The response to a request whose token is accepted is decided by the
    name alone. *)
Lemma fetch_accepted req :
  token_accepted cfg now (token req) = true ->
  fetch v cfg fs now req =
    if negb (filename_matches (filename req)) then (invalid_name, [])
    else
      let p := pdf_path cfg (filename req) in
      match fs !! p with
      | Some File =>
          ({| status := 200; headers := pdf_headers v (filename req); payload := Piped p |},
           [ExistsSync p; CreateReadStream p])
      | Some (Dir _) => (no_response, [ExistsSync p; CreateReadStream p])
      | None => (not_found, [ExistsSync p])
      end.
Proof.
  rewrite fetch_run. unfold token_accepted.
  destruct (jwt_verify (token req) (JWT_SECRET cfg) now) as [d|e]; [|discriminate].
  intros H. apply andb_true_iff in H as [-> H]. apply negb_true_iff in H as ->.
  reflexivity.
Qed.

(** The response to a request whose token is refused. *)
Lemma fetch_refused req :
  token_accepted cfg now (token req) = false ->
  exists msg, fetch v cfg fs now req = (unauthorized msg, []).
Proof.
  rewrite fetch_run. unfold token_accepted.
  destruct (jwt_verify (token req) (JWT_SECRET cfg) now) as [d|e]; [|eauto].
  destruct (truthy (authenticated d)); simpl; [|eauto].
  destruct (token_age_exceeds now (timestamp d)); simpl; [eauto|discriminate].
Qed.

Lemma past_token_check_accepted req :
  past_token_check (fst (fetch v cfg fs now req)) <->
  token_accepted cfg now (token req) = true.
Proof.
  unfold past_token_check. split.
  - intros H. destruct (token_accepted cfg now (token req)) eqn:Hacc; [reflexivity|].
    apply fetch_refused in Hacc as [msg Hmsg]. rewrite Hmsg in H. simpl in H. congruence.
  - intros Hacc. rewrite (fetch_accepted _ Hacc).
    destruct (negb (filename_matches (filename req))); simpl; [discriminate|].
    destruct (fs !! pdf_path cfg (filename req)) as [[|entries]|]; simpl; discriminate.
Qed.

End Fetch.

(** ** Token acceptance *)

Section TokenAcceptance.
Variables (cfg : config) (now : Z).

Lemma token_accepted_spec tok :
  token_accepted cfg now tok = true <->
  exists p,
    tok = Some (Jws (JWT_SECRET cfg) p) /\
    (forall e, exp p = Some e -> now / 1000 < e) /\
    truthy (authenticated p) = true /\
    (forall t, timestamp p = Some t -> now - t <= 3600000).
Proof.
  unfold token_accepted, jwt_verify. split.
  - destruct tok as [[raw|k p]|]; try discriminate.
    destruct (String.eqb k (JWT_SECRET cfg)) eqn:Hk; simpl; [|discriminate].
    apply String.eqb_eq in Hk as ->. intros H. exists p.
    assert (Hexp : forall e, exp p = Some e -> now / 1000 < e).
    { intros e He. rewrite He in H. destruct (now / 1000 >=? e) eqn:Hge; [discriminate|]. lia. }
    assert (Hd : truthy (authenticated p) && negb (token_age_exceeds now (timestamp p)) = true).
    { destruct (exp p) as [e|]; [|exact H]. destruct (now / 1000 >=? e); [discriminate|exact H]. }
    apply andb_true_iff in Hd as [Ha Hage]. apply negb_true_iff in Hage.
    repeat split; auto.
    intros t Ht. rewrite Ht in Hage. simpl in Hage. lia.
  - intros (p & -> & Hexp & Ha & Hage). rewrite String.eqb_refl. simpl.
    assert (Hd : truthy (authenticated p) && negb (token_age_exceeds now (timestamp p)) = true).
    { rewrite Ha. simpl. apply negb_true_iff. destruct (timestamp p) as [t|]; simpl; [|reflexivity].
      specialize (Hage t eq_refl). lia. }
    destruct (exp p) as [e|]; [|exact Hd].
    specialize (Hexp e eq_refl). destruct (now / 1000 >=? e) eqn:Hge; [lia|exact Hd].
Qed.

(** An issued token passes [jwt.verify] exactly while the clock, in whole
    seconds, is before [exp]. *)
Lemma issued_token_accepted t :
  token_accepted cfg now (Some (issued_token cfg t)) = true <->
  now / 1000 < t / 1000 + 3600.
Proof.
  rewrite token_accepted_spec. unfold issued_token, jwt_sign. split.
  - intros (p & Hp & Hexp & _). injection Hp as <-. apply Hexp. reflexivity.
  - intros H. eexists. split; [reflexivity|]. simpl. repeat split.
    + intros e He. injection He as <-. exact H.
    + intros t' Ht. injection Ht as <-. Z.div_mod_to_equations. lia.
Qed.

End TokenAcceptance.

(** C1, as the code has it.  A request is past the token checks exactly
    when [jwt.verify] accepts the token under the signing key (it is a JWS
    whose signature verifies and, if it carries [exp], the clock in whole
    seconds is before [exp]), its [authenticated] claim is truthy, and its
    [timestamp] is at most 3600000 ms old.  A token whose [timestamp] is more
    than 3600 s old is always answered 401, with the body of the expiry check
    when the earlier checks let it through.  A token issued by a login is
    accepted at every check time up to 3599 s after it was issued, and is
    refused by the [exp] check of [jwt.verify] from 3600 s on. *)
Theorem token_accepted_iff_verified_and_fresh (v : variant) (cfg : config)
    (fs : gmap string fs_node) (now : Z) (req : fetch_request) :
  (past_token_check (fst (fetch v cfg fs now req)) <->
   exists p,
     token req = Some (Jws (JWT_SECRET cfg) p) /\
     (forall e, exp p = Some e -> now / 1000 < e) /\
     truthy (authenticated p) = true /\
     (forall t, timestamp p = Some t -> now - t <= 3600 * 1000))
  /\ (forall p t,
        token req = Some (Jws (JWT_SECRET cfg) p) -> timestamp p = Some t ->
        3600 * 1000 < now - t ->
        status (fst (fetch v cfg fs now req)) = 401)
  /\ (forall p t,
        jwt_verify (token req) (JWT_SECRET cfg) now = Ret p ->
        truthy (authenticated p) = true -> timestamp p = Some t ->
        3600 * 1000 < now - t ->
        fetch v cfg fs now req = (unauthorized "Token expired", []))
  /\ (forall t,
        token req = Some (issued_token cfg t) ->
        (now - t <= 3599 * 1000 -> past_token_check (fst (fetch v cfg fs now req)))
        /\ (3600 * 1000 <= now - t ->
            fetch v cfg fs now req = (unauthorized "Invalid token", []))).
Proof.
  split; [|split; [|split]].
  - rewrite past_token_check_accepted. apply token_accepted_spec.
  - intros p t Htok Hts Hold.
    destruct (token_accepted cfg now (token req)) eqn:Hacc.
    + apply token_accepted_spec in Hacc as (p' & Hp' & _ & _ & Hage).
      rewrite Htok in Hp'. injection Hp' as <-. specialize (Hage t Hts). lia.
    + apply (fetch_refused v cfg fs) in Hacc as [msg ->]. reflexivity.
  - intros p t Hv Ha Hts Hold. rewrite fetch_run, Hv, Ha, Hts. simpl.
    replace (now - t >? 3600000) with true by lia. reflexivity.
  - intros t Htok. split.
    + intros Hfresh. apply past_token_check_accepted. rewrite Htok.
      apply issued_token_accepted. Z.div_mod_to_equations. lia.
    + intros Hold. rewrite fetch_run, Htok. unfold issued_token, jwt_sign, jwt_verify.
      rewrite String.eqb_refl. simpl.
      replace (now / 1000 >=? t / 1000 + 3600) with true; [reflexivity|].
      symmetry. apply Z.geb_le. Z.div_mod_to_equations. lia.
Qed.

(** The token a login issued at time 0 is accepted 3599 s later and gets
    past the token checks (here to a 404: the file is not there). *)
Lemma token_accepted_iff_verified_and_fresh_witness :
  3599000 - 0 <= 3599 * 1000 /\
  past_token_check
    (fst (fetch First demo_config demo_fs 3599000
            {| filename := "absent.pdf"; token := Some (issued_token demo_config 0) |})).
Proof.
  split; [lia|].
  apply (token_accepted_iff_verified_and_fresh First demo_config demo_fs 3599000
           {| filename := "absent.pdf"; token := Some (issued_token demo_config 0) |}
         ) with (t := 0); [reflexivity | lia].
Defined.

(** C1 as stated fails at the boundary: the token issued at time 0, checked
    exactly 3600 s later, has a signature that verifies, a true
    [authenticated] claim and an elapsed time of 3600 s, which is at most the
    TTL; [jwt.verify] refuses it because its [exp] is reached. *)
Lemma token_refused_at_ttl_boundary :
  let req := {| filename := "valid.pdf"; token := Some (issued_token demo_config 0) |} in
  (exists p t,
     token req = Some (Jws (JWT_SECRET demo_config) p) /\
     truthy (authenticated p) = true /\
     timestamp p = Some t /\ 3600000 - t <= 3600 * 1000)
  /\ fetch First demo_config demo_fs 3600000 req = (unauthorized "Invalid token", [])
  /\ fetch Second demo_config demo_fs 3600000 req = (unauthorized "Invalid token", [])
  /\ ~ past_token_check (fst (fetch First demo_config demo_fs 3600000 req)).
Proof.
  split; [|split; [|split]].
  - eexists _, 0. repeat split. lia.
  - vm_compute. reflexivity.
  - vm_compute. reflexivity.
  - vm_compute. intros H. apply H. reflexivity.
Qed.

(** ** What a refused token is told *)

(** C3, as the code has it.  Every token failure is answered with status
    401, no header and no storage access, and a body [{error: msg}]; the
    message depends on the check that failed: 'Invalid token' when
    [jwt.verify] throws (Malformed, BadSignature, and Expired by the [exp] of
    the token), 'Unauthorized' for NotAuthenticated, 'Token expired' for
    Expired by a [timestamp] that is too old. *)
Theorem token_failure_response (v : variant) (cfg : config) (fs : gmap string fs_node)
    (now : Z) (req : fetch_request) (e : TokenError) :
  token_failure cfg now (token req) = Some e ->
  snd (fetch v cfg fs now req) = []
  /\ status (fst (fetch v cfg fs now req)) = 401
  /\ headers (fst (fetch v cfg fs now req)) = []
  /\ match e with
     | Malformed | BadSignature =>
         fst (fetch v cfg fs now req) = unauthorized "Invalid token"
     | NotAuthenticated =>
         fst (fetch v cfg fs now req) = unauthorized "Unauthorized"
     | Expired =>
         let exp_reached :=
           match token req with
           | Some (Jws _ p) =>
               match exp p with
               | Some seconds => now / 1000 >=? seconds
               | None => false
               end
           | _ => false
           end in
         fst (fetch v cfg fs now req)
         = unauthorized (if exp_reached then "Invalid token" else "Token expired")
     end.
Proof.
  rewrite fetch_run. unfold token_failure, jwt_verify.
  destruct (token req) as [[raw|k p]|].
  - intros H. injection H as <-. simpl. auto.
  - destruct (negb (String.eqb k (JWT_SECRET cfg))).
    { intros H. injection H as <-. simpl. auto. }
    destruct (exp p) as [ex|].
    + destruct (now / 1000 >=? ex).
      { intros H. injection H as <-. simpl. auto. }
      destruct (truthy (authenticated p)); simpl.
      * destruct (token_age_exceeds now (timestamp p)); [|discriminate].
        intros H. injection H as <-. simpl. auto.
      * intros H. injection H as <-. simpl. auto.
    + destruct (truthy (authenticated p)); simpl.
      * destruct (token_age_exceeds now (timestamp p)); [|discriminate].
        intros H. injection H as <-. simpl. auto.
      * intros H. injection H as <-. simpl. auto.
  - intros H. injection H as <-. simpl. auto.
Qed.

(** A token whose signature verifies, whose [exp] is still ahead and whose
    [timestamp] is more than an hour old is answered 401 'Token expired'. *)
Lemma token_failure_response_witness :
  let stale :=
    Some (Jws (JWT_SECRET demo_config)
            {| authenticated := JBool true; timestamp := Some 0;
               iat := Some 0; exp := Some 7200 |}) in
  token_failure demo_config 3600001 stale = Some Expired /\
  fst (fetch First demo_config demo_fs 3600001
         {| filename := "valid.pdf"; token := stale |})
  = unauthorized "Token expired".
Proof.
  intros stale. split; [reflexivity|].
  apply (token_failure_response First demo_config demo_fs 3600001
           {| filename := "valid.pdf"; token := stale |} Expired).
  reflexivity.
Defined.

(** C3 as stated fails: a malformed token and a token with a valid
    signature whose [authenticated] claim is false both fail verification,
    and the two responses have different bodies. *)
Lemma token_failure_bodies_differ :
  let malformed := Some (NotJws "garbage") in
  let unauthenticated :=
    Some (Jws (JWT_SECRET demo_config)
            {| authenticated := JBool false; timestamp := Some 0;
               iat := Some 0; exp := Some 3600 |}) in
  token_failure demo_config 0 malformed = Some Malformed
  /\ token_failure demo_config 0 unauthenticated = Some NotAuthenticated
  /\ payload (fst (fetch First demo_config demo_fs 0
                     {| filename := "valid.pdf"; token := malformed |}))
     <> payload (fst (fetch First demo_config demo_fs 0
                        {| filename := "valid.pdf"; token := unauthenticated |}))
  /\ payload (fst (fetch Second demo_config demo_fs 0
                     {| filename := "valid.pdf"; token := malformed |}))
     <> payload (fst (fetch Second demo_config demo_fs 0
                        {| filename := "valid.pdf"; token := unauthenticated |})).
Proof.
  repeat split; vm_compute; discriminate.
Qed.

(** ** Names and storage *)

(** C2, as the code has it.  A name is resolved to a storage key (the
    handler makes a storage call for it) only if it is in the grammar, which
    the source enforces as a full-string match.  A name that contains ['/'] or
    ['\'], that has a leading ['..'] segment, or that does not end in
    ['.pdf'] is outside the grammar; for such a name no storage call is made,
    and the answer is 400 'Invalid filename' when the request is past the
    token checks, which come first, and 401 when the token is refused. *)
Theorem invalid_name_rejected_before_storage (v : variant) (cfg : config)
    (fs : gmap string fs_node) (now : Z) (req : fetch_request) :
  (snd (fetch v cfg fs now req) <> [] -> in_grammar (filename req))
  /\ (contains "/"%char (filename req) \/ contains "\"%char (filename req)
      \/ leading_dotdot (filename req) \/ Str.endsWith (filename req) ".pdf" = false ->
      ~ in_grammar (filename req))
  /\ (~ in_grammar (filename req) ->
      snd (fetch v cfg fs now req) = []
      /\ (token_accepted cfg now (token req) = true ->
          fetch v cfg fs now req = (invalid_name, []))
      /\ (token_accepted cfg now (token req) = false ->
          status (fst (fetch v cfg fs now req)) = 401)).
Proof.
  assert (Hbad : ~ in_grammar (filename req) ->
                 snd (fetch v cfg fs now req) = []
                 /\ (token_accepted cfg now (token req) = true ->
                     fetch v cfg fs now req = (invalid_name, []))
                 /\ (token_accepted cfg now (token req) = false ->
                     status (fst (fetch v cfg fs now req)) = 401)).
  { intros Hng.
    assert (Hm : filename_matches (filename req) = false).
    { destruct (filename_matches (filename req)) eqn:Hm; [|reflexivity].
      apply filename_matches_grammar in Hm. contradiction. }
    split; [|split].
    - destruct (token_accepted cfg now (token req)) eqn:Hacc.
      + rewrite (fetch_accepted v cfg fs now req Hacc), Hm. reflexivity.
      + apply (fetch_refused v cfg fs) in Hacc as [msg ->]. reflexivity.
    - intros Hacc. rewrite (fetch_accepted v cfg fs now req Hacc), Hm. reflexivity.
    - intros Hacc. apply (fetch_refused v cfg fs) in Hacc as [msg ->]. reflexivity. }
  split; [|split; [|exact Hbad]].
  - intros Hlog. destruct (filename_matches (filename req)) eqn:Hm.
    + apply filename_matches_grammar, Hm.
    + exfalso. apply Hlog, Hbad. intros Hg. apply filename_matches_grammar in Hg. congruence.
  - intros [H | [H | [H | H]]].
    + apply (grammar_excludes_char "/"%char); auto.
    + apply (grammar_excludes_char "\"%char); auto.
    + apply grammar_no_leading_dotdot, H.
    + intros Hg. apply grammar_ends_with_pdf in Hg. congruence.
Qed.

(** The traversal attempt ['../../etc/passwd.pdf'], sent with a valid
    token, is answered 400 without a storage call. *)
Lemma invalid_name_rejected_before_storage_witness :
  let req := {| filename := "../../etc/passwd.pdf";
                token := Some (issued_token demo_config 0) |} in
  leading_dotdot (filename req)
  /\ ~ in_grammar (filename req)
  /\ token_accepted demo_config 1000 (token req) = true
  /\ fetch Second demo_config demo_fs 1000 req = (invalid_name, []).
Proof.
  intros req.
  pose proof (invalid_name_rejected_before_storage Second demo_config demo_fs 1000 req)
    as (_ & Hshape & Hbad).
  assert (Hdd : leading_dotdot (filename req)) by (right; left; reflexivity).
  assert (Hng : ~ in_grammar (filename req)) by (apply Hshape; auto).
  assert (Hacc : token_accepted demo_config 1000 (token req) = true) by reflexivity.
  split; [exact Hdd|]. split; [exact Hng|]. split; [exact Hacc|].
  destruct (Hbad Hng) as (_ & H400 & _). apply H400, Hacc.
Defined.

(** C2 as stated fails: the name ['a/b.pdf'] contains ['/'], and a request
    for it without a token is answered 401, not 400: the token checks come
    before the name check. *)
Lemma invalid_name_with_refused_token :
  let req := {| filename := "a/b.pdf"; token := None |} in
  contains "/"%char (filename req)
  /\ fetch First demo_config demo_fs 0 req = (unauthorized "Invalid token", [])
  /\ fetch Second demo_config demo_fs 0 req = (unauthorized "Invalid token", [])
  /\ status (fst (fetch First demo_config demo_fs 0 req)) <> 400
  /\ status (fst (fetch Second demo_config demo_fs 0 req)) <> 400.
Proof.
  split; [|split; [|split; [|split]]].
  - unfold contains. simpl. auto.
  - vm_compute. reflexivity.
  - vm_compute. reflexivity.
  - vm_compute. discriminate.
  - vm_compute. discriminate.
Qed.

(** C4.  Every storage call of a fetch is made for a request that is past
    the token checks and whose name is in the grammar, it is made on the
    storage key of that name, and the existence check comes first; a name
    outside the grammar causes no storage call and is never answered 404; a
    404 is the answer to a name of the grammar whose key does not exist. *)
Theorem storage_only_after_grammar (v : variant) (cfg : config)
    (fs : gmap string fs_node) (now : Z) (req : fetch_request) :
  (forall ev, In ev (snd (fetch v cfg fs now req)) ->
     in_grammar (filename req)
     /\ token_accepted cfg now (token req) = true
     /\ (ev = ExistsSync (pdf_path cfg (filename req))
         \/ ev = CreateReadStream (pdf_path cfg (filename req))))
  /\ (snd (fetch v cfg fs now req) = []
      \/ snd (fetch v cfg fs now req) = [ExistsSync (pdf_path cfg (filename req))]
      \/ snd (fetch v cfg fs now req)
         = [ExistsSync (pdf_path cfg (filename req));
            CreateReadStream (pdf_path cfg (filename req))])
  /\ (~ in_grammar (filename req) ->
      snd (fetch v cfg fs now req) = [] /\ status (fst (fetch v cfg fs now req)) <> 404)
  /\ (status (fst (fetch v cfg fs now req)) = 404 ->
      in_grammar (filename req)
      /\ fs !! pdf_path cfg (filename req) = None
      /\ fetch v cfg fs now req = (not_found, [ExistsSync (pdf_path cfg (filename req))])).
Proof.
  destruct (token_accepted cfg now (token req)) eqn:Hacc.
  - rewrite (fetch_accepted v cfg fs now req Hacc).
    destruct (filename_matches (filename req)) eqn:Hm; simpl.
    + pose proof (proj1 (filename_matches_grammar _) Hm) as Hg.
      destruct (fs !! pdf_path cfg (filename req)) as [[|entries]|] eqn:Hfs.
      * simpl. split; [|split; [|split]].
        -- intros ev [<- | [<- | []]]; auto.
        -- auto.
        -- intros Hng. contradiction.
        -- discriminate.
      * simpl. split; [|split; [|split]].
        -- intros ev [<- | [<- | []]]; auto.
        -- auto.
        -- intros Hng. contradiction.
        -- discriminate.
      * simpl. split; [|split; [|split]].
        -- intros ev [<- | []]; auto.
        -- auto.
        -- intros Hng. contradiction.
        -- auto.
    + assert (Hng : ~ in_grammar (filename req)).
      { intros Hg. apply filename_matches_grammar in Hg. congruence. }
      split; [|split; [|split]].
      * intros ev [].
      * auto.
      * intros _. split; [reflexivity | discriminate].
      * discriminate.
  - destruct (fetch_refused v cfg fs now req Hacc) as [msg ->]. simpl.
    split; [|split; [|split]].
    + intros ev [].
    + auto.
    + intros _. split; [reflexivity | discriminate].
    + discriminate.
Qed.

(** With a token that is accepted: the decoded form of
    ['..%2f..%2fsecret.pdf'] causes no storage call and no 404, and a name of
    the grammar that is not stored is answered 404 after its existence
    check. *)
Lemma storage_only_after_grammar_witness :
  let tok := Some (issued_token demo_config 0) in
  let bad := {| filename := "../../secret.pdf"; token := tok |} in
  let absent := {| filename := "absent.pdf"; token := tok |} in
  token_accepted demo_config 1000 tok = true
  /\ ~ in_grammar (filename bad)
  /\ snd (fetch First demo_config demo_fs 1000 bad) = []
  /\ status (fst (fetch First demo_config demo_fs 1000 bad)) <> 404
  /\ status (fst (fetch First demo_config demo_fs 1000 absent)) = 404
  /\ in_grammar (filename absent)
  /\ fetch First demo_config demo_fs 1000 absent
     = (not_found, [ExistsSync (pdf_path demo_config (filename absent))]).
Proof.
  intros tok bad absent.
  assert (Hng : ~ in_grammar (filename bad)).
  { apply grammar_no_leading_dotdot. right; left; reflexivity. }
  assert (H404 : status (fst (fetch First demo_config demo_fs 1000 absent)) = 404)
    by (vm_compute; reflexivity).
  destruct (storage_only_after_grammar First demo_config demo_fs 1000 bad)
    as (_ & _ & Hbad & _).
  destruct (storage_only_after_grammar First demo_config demo_fs 1000 absent)
    as (_ & _ & _ & Habsent).
  destruct (Hbad Hng) as [Hlog Hst]. destruct (Habsent H404) as (Hg & _ & Hrun).
  split; [reflexivity|]. split; [exact Hng|]. split; [exact Hlog|]. split; [exact Hst|].
  split; [exact H404|]. split; [exact Hg | exact Hrun].
Defined.

(** ** Sorting by a key *)

Section SortByKey.
Context {A : Type} (key : A -> Z).

Let cmp (a b : A) : Z := key a - key b.
Let key_le (a b : A) : Prop := key a <= key b.

Lemma sort_insert_perm x l : Permutation (sort_insert cmp x l) (x :: l).
Proof.
  induction l as [|y l IH]; simpl; [reflexivity|].
  destruct (cmp x y <=? 0); [reflexivity|].
  rewrite IH. apply perm_swap.
Qed.

Lemma js_sort_perm l : Permutation (js_sort cmp l) l.
Proof.
  induction l as [|x l IH]; simpl; [reflexivity|].
  rewrite sort_insert_perm. constructor. exact IH.
Qed.

Lemma sort_insert_sorted x l :
  Sorted key_le l -> Sorted key_le (sort_insert cmp x l).
Proof.
  induction 1 as [|y l Hl IH Hhd]; simpl.
  - repeat constructor.
  - destruct (cmp x y <=? 0) eqn:Hc.
    + constructor; [constructor; assumption|]. constructor.
      unfold key_le, cmp in *. lia.
    + constructor; [exact IH|].
      destruct l as [|z l]; simpl.
      * constructor. unfold key_le, cmp in *. lia.
      * destruct (cmp x z <=? 0).
        -- constructor. unfold key_le, cmp in *. lia.
        -- constructor. inversion Hhd; assumption.
Qed.

Lemma js_sort_sorted l : StronglySorted key_le (js_sort cmp l).
Proof.
  apply Sorted_StronglySorted.
  - intros a b c Hab Hbc. unfold key_le in *. lia.
  - induction l as [|x l IH]; simpl; [constructor|].
    apply sort_insert_sorted, IH.
Qed.



End SortByKey.

(** ** Page numbers *)

Section PageNumbers.
Import Regex.

Lemma search_suffix_Some r w m :
  search_suffix r w = Some m -> exists front, w = front ++ m /\ Matches r m.
Proof.
  induction w as [|c w IH]; simpl.
  - destruct (nullable r) eqn:Hn; [|discriminate].
    intros H. injection H as <-. exists []. split; [reflexivity|].
    apply nullable_Matches_nil, Hn.
  - destruct (accepts (deriv c r) w) eqn:Hacc.
    + intros H. injection H as <-. exists []. split; [reflexivity|].
      apply (accepts_Matches r (c :: w)). exact Hacc.
    + intros H. apply IH in H as (front & -> & Hm). exists (c :: front). auto.
Qed.

Lemma search_suffix_finds r front m :
  Matches r m -> exists m', search_suffix r (front ++ m) = Some m'.
Proof.
  intros Hm. induction front as [|c front IH].
  - simpl. exists m. apply accepts_Matches in Hm.
    destruct m; simpl in *; rewrite Hm; reflexivity.
  - simpl. destruct (accepts (deriv c r) (front ++ m)); eauto.
Qed.

Lemma search_suffix_None r w front m :
  search_suffix r w = None -> w = front ++ m -> ~ Matches r m.
Proof.
  intros Hnone -> Hm. destruct (search_suffix_finds r front m Hm) as [m' Hm'].
  congruence.
Qed.

Lemma is_digit_class c : cls_has [Range "0" "9"]%char c = Str.is_digit c.
Proof. unfold cls_has, Str.is_digit. simpl. apply orb_false_r. Qed.

Lemma one_class d c : cls_has [One d] c = Ascii.eqb d c.
Proof. unfold cls_has. cbn [existsb item_has]. apply orb_false_r. Qed.

(** What [-(\d+)\.png] matches. *)
Lemma Matches_page_re m :
  Matches page_re m <->
  exists ds, ds <> [] /\ Forall (fun c => Str.is_digit c = true) ds /\
             m = "-"%char :: ds ++ Str.chars ".png".
Proof.
  unfold page_re. split.
  - intros H. apply Matches_Cat_inv in H as (u & v & -> & Hu & Hv).
    apply Matches_Cat_inv in Hv as (ds & tl & -> & Hds & Htl).
    apply Matches_Plus_Class in Hds as [Hne Hall]. apply Matches_Lit in Htl as ->.
    inversion Hu as [|items c Hc| | | | |]; subst.
    rewrite one_class in Hc. apply Ascii.eqb_eq in Hc as <-.
    exists ds. repeat split; auto.
    eapply List.Forall_impl; [|exact Hall]. intros c Hc. simpl in Hc.
    rewrite <- is_digit_class. exact Hc.
  - intros (ds & Hne & Hall & ->).
    change ("-"%char :: ds ++ Str.chars ".png") with (["-"%char] ++ (ds ++ Str.chars ".png")).
    constructor; [constructor; reflexivity|]. constructor.
    + apply Matches_Plus_Class. split; [exact Hne|].
      eapply List.Forall_impl; [|exact Hall]. intros c Hc. simpl in Hc.
      rewrite is_digit_class. exact Hc.
    + apply Matches_Lit. reflexivity.
Qed.

Lemma split_at_last (c : ascii) (a1 a2 b1 b2 : list ascii) :
  ~ In c b1 -> ~ In c b2 -> a1 ++ c :: b1 = a2 ++ c :: b2 -> a1 = a2 /\ b1 = b2.
Proof.
  revert a2. induction a1 as [|x a1 IH]; intros a2 H1 H2 Heq.
  - destruct a2 as [|y a2]; simpl in Heq.
    + injection Heq as <-. auto.
    + injection Heq as <- ->. exfalso. apply H1, in_or_app. right. left. reflexivity.
  - destruct a2 as [|y a2]; simpl in Heq.
    + injection Heq as -> <-. exfalso. apply H2, in_or_app. right. left. reflexivity.
    + injection Heq as <- Heq. apply IH in Heq as [-> ->]; auto.
Qed.

Lemma digits_have_no_dash ds :
  Forall (fun c => Str.is_digit c = true) ds -> ~ In "-"%char ds.
Proof.
  intros Hall Hin. rewrite List.Forall_forall in Hall. apply Hall in Hin. discriminate.
Qed.

Lemma firstn_length_app (l k : list ascii) : firstn (length l) (l ++ k) = l.
Proof. induction l as [|x l IH]; simpl; [reflexivity | rewrite IH; reflexivity]. Qed.

(** The group of the match is the run of digits of the name. *)
Lemma page_group_numbered a ds : numbered a ds -> page_group a = Some ds.
Proof.
  intros (Hne & Hall & front & Hchars). unfold page_group. rewrite Hchars.
  assert (Hm : Matches page_re ("-"%char :: ds ++ Str.chars ".png")).
  { apply Matches_page_re. eauto. }
  destruct (search_suffix_finds page_re front _ Hm) as [m' Hm']. rewrite Hm'.
  apply search_suffix_Some in Hm' as (front' & Heq & Hmatch).
  apply Matches_page_re in Hmatch as (ds' & Hne' & Hall' & ->).
  change (front ++ "-"%char :: ds ++ Str.chars ".png")
    with (front ++ ("-"%char :: ds) ++ Str.chars ".png") in Heq.
  change (front' ++ "-"%char :: ds' ++ Str.chars ".png")
    with (front' ++ ("-"%char :: ds') ++ Str.chars ".png") in Heq.
  rewrite !app_assoc in Heq. apply app_inv_tail in Heq.
  apply split_at_last in Heq as [_ <-]; auto using digits_have_no_dash.
  f_equal. simpl skipn. rewrite length_cons, length_app. simpl length.
  replace (S (length ds + 4) - 5)%nat with (length ds) by lia.
  apply firstn_length_app.
Qed.

Lemma page_group_unnumbered a :
  (forall ds, ~ numbered a ds) -> page_group a = None.
Proof.
  intros Hnot. unfold page_group.
  destruct (search_suffix page_re (Str.chars a)) as [m|] eqn:Hs; [|reflexivity].
  apply search_suffix_Some in Hs as (front & Heq & Hm).
  apply Matches_page_re in Hm as (ds & Hne & Hall & ->).
  exfalso. apply (Hnot ds). repeat split; eauto.
Qed.

Lemma page_number_numbered a ds :
  numbered a ds -> page_number a = Str.parseInt_digits ds.
Proof. intros H. unfold page_number. rewrite (page_group_numbered a ds H). reflexivity. Qed.

Lemma page_number_unnumbered a : (forall ds, ~ numbered a ds) -> page_number a = 0.
Proof. intros H. unfold page_number. rewrite (page_group_unnumbered a H). reflexivity. Qed.

End PageNumbers.

(** ** The manifest of page images *)

Section Manifest.
Variables (cfg : config) (fs : gmap string fs_node).

(** The run of [getPngListForPdf] on a string. *)
Lemma getPngListForPdf_run name log :
  V2.getPngListForPdf cfg fs (JStr name) log =
    match fs !! pngs_dir cfg with
    | None => (Ret [], log ++ [ExistsSync (pngs_dir cfg)])
    | Some File =>
        (Throw (SystemError "ENOTDIR"),
         (log ++ [ExistsSync (pngs_dir cfg)]) ++ [ReaddirSync (pngs_dir cfg)])
    | Some (Dir listing) =>
        (Ret (js_sort V2.by_page
                (List.filter (V2.is_page_of (Str.replace_first ".pdf" "" name)) listing)),
         (log ++ [ExistsSync (pngs_dir cfg)]) ++ [ReaddirSync (pngs_dir cfg)])
    end.
Proof.
  unfold V2.getPngListForPdf, bind, existsSync, readdirSync, ret.
  fold (pngs_dir cfg). generalize (pngs_dir cfg) as d. intros d.
  destruct (fs !! d) as [[|listing]|] eqn:Hfs.
  - rewrite bool_decide_eq_true_2 by eauto. reflexivity.
  - rewrite bool_decide_eq_true_2 by eauto. reflexivity.
  - rewrite bool_decide_eq_false_2 by (intros [? ?]; discriminate). reflexivity.
Qed.

(** On a value that is not a string the function throws before any storage
    call. *)
Lemma getPngListForPdf_not_string value log :
  (forall name, value <> JStr name) ->
  V2.getPngListForPdf cfg fs value log
  = (Throw (TypeError "pdfFilename.replace is not a function"), log).
Proof. intros H. destruct value; try reflexivity. exfalso. eapply H. reflexivity. Qed.

Lemma is_page_of_spec base file :
  V2.is_page_of base file = true <->
  Str.startsWith file (base +:+ "-") = true /\ Str.endsWith file ".png" = true.
Proof. unfold V2.is_page_of. apply andb_true_iff. Qed.

End Manifest.





(** Page numbers are doubles: the digits of 2^53 + 1 and of 2^53 give the
    same number, so the two entries keep the order of the listing. *)
Example manifest_rounds_page_numbers :
  page_number "report-09007199254740993.png" = page_number "report-9007199254740992.png"
  /\ fst (V2.getPngListForPdf demo_config
            (<["/app/pngs" := Dir ["report-09007199254740993.png";
                                   "report-9007199254740992.png"]]> ∅)
            (JStr "report.pdf") [])
     = Ret ["report-09007199254740993.png"; "report-9007199254740992.png"]
  /\ map Str.to_double
       [2 ^ 53 + 1; 2 ^ 53 + 2; 2 ^ 53 + 3; 2 ^ 54 + 2; 2 ^ 54 + 6; 10 ^ 22; 10 ^ 400]
     = [2 ^ 53; 2 ^ 53 + 2; 2 ^ 53 + 4; 2 ^ 54; 2 ^ 54 + 8; 10 ^ 22; 2 ^ 1024].
Proof. repeat split; vm_compute; reflexivity. Qed.

Example manifest_keeps_unnumbered_entry :
  fst (V2.getPngListForPdf demo_config
         (<["/app/pngs" := Dir ["report-2.png"; "report-cover.png"; "report-1.png"; "other-1.png"]]> ∅)
         (JStr "report.pdf") [])
  = Ret ["report-cover.png"; "report-1.png"; "report-2.png"].
Proof. vm_compute. reflexivity. Qed.

(** ** [POST /auth], step by step *)

Section Login.
Variables (cfg : config) (fs : gmap string fs_node) (now : Z).

Lemma strict_eq_string_spec value s :
  strict_eq_string value s = true <-> value = JStr s.
Proof.
  destruct value; simpl; try (split; discriminate).
  rewrite String.eqb_eq. split; congruence.
Qed.

Lemma login_first b :
  login First cfg fs now b =
    if strict_eq_string (password b) (PDF_PASSWORD cfg)
    then (standard_response (issued_token cfg now), [])
    else (auth_denied, []).
Proof.
  unfold login, post_auth, V1.post_auth, express_run, ret.
  destruct (strict_eq_string (password b) (PDF_PASSWORD cfg)); reflexivity.
Qed.

Lemma login_second b :
  login Second cfg fs now b =
    if strict_eq_string (password b) (PDF_PASSWORD cfg) then
      if png_mode_requested cfg b then
        match V2.getPngListForPdf cfg fs (pdfFilename b) [] with
        | (Ret pngFiles, log) =>
            (match pngFiles with
             | [] => standard_response (issued_token cfg now)
             | _ :: _ => png_response (issued_token cfg now) pngFiles
             end, log)
        | (Throw _, log) => (error_middleware, log)
        end
      else (standard_response (issued_token cfg now), [])
    else (auth_denied, []).
Proof.
  unfold login, post_auth, V2.post_auth, express_run, png_mode_requested, bind, ret.
  destruct (strict_eq_string (password b) (PDF_PASSWORD cfg)); [|reflexivity].
  destruct (SERVE_PNGS_FOR_IOS cfg && truthy (isIOS b) && truthy (pdfFilename b));
    [|reflexivity].
  destruct (V2.getPngListForPdf cfg fs (pdfFilename b) []) as [[pngFiles|e] log];
    [|reflexivity].
  destruct pngFiles; reflexivity.
Qed.

Lemma standard_response_succeeded t : login_succeeded (standard_response t) t.
Proof. split; [reflexivity|]. eexists. split; [reflexivity|]. repeat split. Qed.

Lemma png_response_succeeded t pngFiles : login_succeeded (png_response t pngFiles) t.
Proof. split; [reflexivity|]. eexists. split; [reflexivity|]. repeat split. Qed.

End Login.

Lemma issued_token_valid cfg now later :
  later - now <= 3599 * 1000 ->
  token_accepted cfg later (Some (issued_token cfg now)) = true.
Proof. intros H. apply issued_token_accepted. Z.div_mod_to_equations. lia. Qed.

(** C6, as the code has it.  A login succeeds only if the submitted
    password is the configured secret.  With the secret it succeeds whenever
    the manifest can be computed (always in the first variant), with
    [success: true], [expiresIn: 3600] and a token issued at the time of the
    request: signed with the signing key, [authenticated], stamped with that
    time, and accepted by the token checks for the next 3599 s.  With the
    secret, in PNG mode, when the path of the page directory is taken by a
    file, the login is answered 500 by the error middleware.  Any other
    password is answered 401 with [{success: false, message: 'Invalid
    password'}], which carries no token, and causes no storage call. *)
Theorem login_succeeds_iff_password (v : variant) (cfg : config)
    (fs : gmap string fs_node) (now : Z) (b : auth_body) :
  ((exists t, login_succeeded (fst (login v cfg fs now b)) t) ->
   password b = JStr (PDF_PASSWORD cfg))
  /\ (password b = JStr (PDF_PASSWORD cfg) -> manifest_computable v cfg fs b ->
      login_succeeded (fst (login v cfg fs now b)) (issued_token cfg now)
      /\ issued_token cfg now
         = Jws (JWT_SECRET cfg)
             {| authenticated := JBool true; timestamp := Some now;
                iat := Some (now / 1000); exp := Some (now / 1000 + 3600) |}
      /\ forall later, later - now <= 3599 * 1000 ->
           token_accepted cfg later (Some (issued_token cfg now)) = true)
  /\ (password b = JStr (PDF_PASSWORD cfg) -> png_mode_requested cfg b = true ->
      (exists name, pdfFilename b = JStr name) -> fs !! pngs_dir cfg = Some File ->
      fst (login Second cfg fs now b) = error_middleware
      /\ ~ exists t, login_succeeded (fst (login Second cfg fs now b)) t)
  /\ (password b <> JStr (PDF_PASSWORD cfg) ->
      login v cfg fs now b = (auth_denied, [])
      /\ status auth_denied = 401
      /\ payload auth_denied
         = Json (JsObj [("success", JsBool false); ("message", JsStr "Invalid password")])
      /\ forall j, payload auth_denied = Json j -> field "token" j = None).
Proof.
  assert (Hfault : password b = JStr (PDF_PASSWORD cfg) -> png_mode_requested cfg b = true ->
                   (exists name, pdfFilename b = JStr name) ->
                   fs !! pngs_dir cfg = Some File ->
                   fst (login Second cfg fs now b) = error_middleware
                   /\ ~ exists t, login_succeeded (fst (login Second cfg fs now b)) t).
  { intros Hpw Hmode [name Hname] Hdir. apply strict_eq_string_spec in Hpw.
    rewrite login_second, Hpw, Hmode, Hname, getPngListForPdf_run, Hdir. simpl.
    split; [reflexivity|]. intros [t [Hst _]]. discriminate. }
  destruct (strict_eq_string (password b) (PDF_PASSWORD cfg)) eqn:Hpw.
  - apply strict_eq_string_spec in Hpw as Hpw'.
    split; [auto|]. split; [|split; [exact Hfault | contradiction]].
    intros _ Hcomp. split; [|split; [reflexivity | apply issued_token_valid]].
    destruct v.
    + rewrite login_first, Hpw. apply standard_response_succeeded.
    + rewrite login_second, Hpw. simpl in Hcomp.
      destruct (png_mode_requested cfg b); [|apply standard_response_succeeded].
      destruct (Hcomp eq_refl) as [[name Hname] Hdir]. rewrite Hname.
      rewrite getPngListForPdf_run.
      destruct (fs !! pngs_dir cfg) as [[|listing]|]; simpl.
      * contradiction.
      * destruct (js_sort _ _);
          [apply standard_response_succeeded | apply png_response_succeeded].
      * apply standard_response_succeeded.
  - assert (Hne : password b <> JStr (PDF_PASSWORD cfg)).
    { intros Heq. apply strict_eq_string_spec in Heq. congruence. }
    assert (Hrun : login v cfg fs now b = (auth_denied, [])).
    { destruct v; [rewrite login_first | rewrite login_second]; rewrite Hpw; reflexivity. }
    split; [|split; [|split]].
    + rewrite Hrun. intros [t [Hst _]]. discriminate.
    + contradiction.
    + exact Hfault.
    + intros _. split; [exact Hrun|]. split; [reflexivity|]. split; [reflexivity|].
      intros j Hj. injection Hj as <-. reflexivity.
Qed.

(** The secret logs in, in PNG mode, over the demo storage, and the token
    of the response is accepted by a fetch a minute later. *)
Lemma login_succeeds_iff_password_witness :
  let b := {| password := JStr "hunter2"; isIOS := JBool true;
              pdfFilename := JStr "report.pdf" |} in
  password b = JStr (PDF_PASSWORD demo_config)
  /\ manifest_computable Second demo_config demo_fs b
  /\ login_succeeded (fst (login Second demo_config demo_fs 1000 b))
       (issued_token demo_config 1000)
  /\ token_accepted demo_config 61000 (Some (issued_token demo_config 1000)) = true.
Proof.
  intros b.
  assert (Hpw : password b = JStr (PDF_PASSWORD demo_config)) by reflexivity.
  assert (Hcomp : manifest_computable Second demo_config demo_fs b).
  { intros _. split; [exists "report.pdf"; reflexivity | vm_compute; discriminate]. }
  destruct (login_succeeds_iff_password Second demo_config demo_fs 1000 b)
    as (_ & Hok & _).
  destruct (Hok Hpw Hcomp) as (Hsucc & _ & Hvalid).
  split; [exact Hpw|]. split; [exact Hcomp|]. split; [exact Hsucc|].
  apply Hvalid. lia.
Defined.

(** C6 as stated fails: the page directory path is taken by a file, and a
    login with the secret in PNG mode is answered 500 without a token. *)
Lemma secret_login_answered_500 :
  let fs : gmap string fs_node := <["/app/pngs" := File]> ∅ in
  let b := {| password := JStr "hunter2"; isIOS := JBool true;
              pdfFilename := JStr "report.pdf" |} in
  password b = JStr (PDF_PASSWORD demo_config)
  /\ login Second demo_config fs 1000 b
     = (error_middleware, [ExistsSync "/app/pngs"; ReaddirSync "/app/pngs"])
  /\ status (fst (login Second demo_config fs 1000 b)) = 500
  /\ ~ exists t, login_succeeded (fst (login Second demo_config fs 1000 b)) t.
Proof.
  intros fs b. split; [reflexivity|]. split; [vm_compute; reflexivity|].
  split; [vm_compute; reflexivity|].
  intros [t [Hst _]]. vm_compute in Hst. discriminate.
Qed.

Example login_wrong_password :
  login Second demo_config demo_fs 1000
    {| password := JStr "hunter"; isIOS := JBool true; pdfFilename := JStr "report.pdf" |}
  = (auth_denied, []).
Proof. vm_compute. reflexivity. Qed.

(** ** Manifest discovery at login *)

(** C9.  Whatever string a login supplies as the primary file name, the
    manifest computation calls the storage only to test and to list the page
    directory, whose path is fixed by the configuration; the calls are the
    same for every name; every entry of the manifest is an entry of that
    listing that starts with [<base>-] and ends with [.png].  The same holds
    for the storage calls of the whole login, whatever the body. *)
Theorem manifest_discovery_stays_in_pngs_dir (cfg : config) (fs : gmap string fs_node)
    (name : string) (log : list fs_event) :
  (exists calls,
     snd (V2.getPngListForPdf cfg fs (JStr name) log) = log ++ calls
     /\ (calls = [ExistsSync (pngs_dir cfg)]
         \/ calls = [ExistsSync (pngs_dir cfg); ReaddirSync (pngs_dir cfg)]))
  /\ (forall name',
        snd (V2.getPngListForPdf cfg fs (JStr name') log)
        = snd (V2.getPngListForPdf cfg fs (JStr name) log))
  /\ (forall manifest file,
        fst (V2.getPngListForPdf cfg fs (JStr name) log) = Ret manifest ->
        In file manifest ->
        exists listing,
          fs !! pngs_dir cfg = Some (Dir listing) /\ In file listing
          /\ Str.startsWith file (Str.replace_first ".pdf" "" name +:+ "-") = true
          /\ Str.endsWith file ".png" = true)
  /\ (forall v now b ev,
        In ev (snd (login v cfg fs now b)) ->
        ev = ExistsSync (pngs_dir cfg) \/ ev = ReaddirSync (pngs_dir cfg)).
Proof.
  split; [|split; [|split]].
  - rewrite getPngListForPdf_run.
    destruct (fs !! pngs_dir cfg) as [[|listing]|]; simpl.
    + eexists. split; [rewrite <- app_assoc; reflexivity | auto].
    + eexists. split; [rewrite <- app_assoc; reflexivity | auto].
    + eexists. split; [reflexivity | auto].
  - intros name'. rewrite !getPngListForPdf_run.
    destruct (fs !! pngs_dir cfg) as [[|listing]|]; reflexivity.
  - intros manifest file. rewrite getPngListForPdf_run.
    destruct (fs !! pngs_dir cfg) as [[|listing]|]; simpl; intros Hret Hin.
    + discriminate.
    + injection Hret as <-. exists listing. split; [reflexivity|].
      apply (Permutation_in _ (js_sort_perm page_number _)) in Hin.
      apply filter_In in Hin as [Hin Hpage]. apply is_page_of_spec in Hpage as [Hs He].
      auto.
    + injection Hret as <-. destruct Hin.
  - intros v now b ev. destruct v.
    + rewrite login_first. destruct (strict_eq_string _ _); intros [].
    + rewrite login_second. destruct (strict_eq_string _ _); [|intros []].
      destruct (png_mode_requested cfg b); [|intros []].
      destruct (pdfFilename b) as [| | | |pdfname|] eqn:Hname;
        try (simpl; intros []).
      rewrite getPngListForPdf_run.
      destruct (fs !! pngs_dir cfg) as [[|listing]|]; simpl.
      * intros [<- | [<- | []]]; auto.
      * intros [<- | [<- | []]]; auto.
      * intros [<- | []]; auto.
Qed.

(** A name made of a traversal path: the storage calls are those of any
    other name, and the manifest is empty. *)
Lemma manifest_discovery_stays_in_pngs_dir_witness :
  V2.getPngListForPdf demo_config demo_fs (JStr "../../etc/passwd") []
  = (Ret [], [ExistsSync "/app/pngs"; ReaddirSync "/app/pngs"])
  /\ forall ev,
       In ev (snd (login Second demo_config demo_fs 0
                     {| password := JStr "hunter2"; isIOS := JBool true;
                        pdfFilename := JStr "../../etc/passwd" |})) ->
       ev = ExistsSync (pngs_dir demo_config) \/ ev = ReaddirSync (pngs_dir demo_config).
Proof.
  split; [vm_compute; reflexivity|].
  intros ev.
  apply (manifest_discovery_stays_in_pngs_dir demo_config demo_fs "../../etc/passwd" []).
Defined.

(** C10.  In the second variant, a login with the secret that requests PNG
    mode and whose manifest is empty gets the standard response: a valid token
    (signed with the signing key at the time of the request, and accepted by
    the token checks for the next 3599 s), [expiresIn: 3600], and neither
    [usePngMode] nor [pngFiles]; with a non-empty manifest it gets
    [usePngMode: true] and the manifest as [pngFiles].  A login response that
    has one of the two fields comes from a PNG-mode login with the secret
    whose manifest is not empty, and has both. *)
Theorem png_mode_needs_pages (cfg : config) (fs : gmap string fs_node) (now : Z)
    (b : auth_body) :
  (password b = JStr (PDF_PASSWORD cfg) ->
   png_mode_requested cfg b = true ->
   forall manifest,
     fst (V2.getPngListForPdf cfg fs (pdfFilename b) []) = Ret manifest ->
     (manifest = [] ->
      exists tok,
        fst (login Second cfg fs now b)
        = res_json (JsObj [("success", JsBool true); ("token", JsToken tok);
                           ("expiresIn", JsNum 3600)])
        /\ tok = Jws (JWT_SECRET cfg)
                   {| authenticated := JBool true; timestamp := Some now;
                      iat := Some (now / 1000); exp := Some (now / 1000 + 3600) |}
        /\ (forall later, later - now <= 3599 * 1000 ->
              token_accepted cfg later (Some tok) = true)
        /\ login_succeeded (fst (login Second cfg fs now b)) tok
        /\ (forall j, payload (fst (login Second cfg fs now b)) = Json j ->
              field "usePngMode" j = None /\ field "pngFiles" j = None))
     /\ (manifest <> [] ->
         fst (login Second cfg fs now b) = png_response (issued_token cfg now) manifest))
  /\ (forall j,
        payload (fst (login Second cfg fs now b)) = Json j ->
        field "usePngMode" j <> None \/ field "pngFiles" j <> None ->
        password b = JStr (PDF_PASSWORD cfg)
        /\ png_mode_requested cfg b = true
        /\ exists manifest,
             manifest <> []
             /\ fst (V2.getPngListForPdf cfg fs (pdfFilename b) []) = Ret manifest
             /\ field "usePngMode" j = Some (JsBool true)
             /\ field "pngFiles" j = Some (JsArr (map JsStr manifest)))
  /\ (forall later, later - now <= 3599 * 1000 ->
        token_accepted cfg later (Some (issued_token cfg now)) = true).
Proof.
  split; [|split].
  - intros Hpw Hmode manifest Hrun. apply strict_eq_string_spec in Hpw.
    rewrite login_second, Hpw, Hmode.
    destruct (V2.getPngListForPdf cfg fs (pdfFilename b) []) as [[pngFiles|e] log];
      simpl in Hrun; [|discriminate].
    injection Hrun as ->. split.
    + intros ->. simpl. exists (issued_token cfg now).
      split; [reflexivity|]. split; [reflexivity|].
      split; [apply issued_token_valid|].
      split; [apply standard_response_succeeded|].
      intros j Hj. injection Hj as <-. split; reflexivity.
    + intros Hne. destruct manifest; [congruence|]. reflexivity.
  - intros j. rewrite login_second.
    destruct (strict_eq_string (password b) (PDF_PASSWORD cfg)) eqn:Hpw.
    + apply strict_eq_string_spec in Hpw.
      destruct (png_mode_requested cfg b).
      * destruct (V2.getPngListForPdf cfg fs (pdfFilename b) []) as [[pngFiles|e] log].
        -- destruct pngFiles as [|file pngFiles]; simpl; intros Hj; injection Hj as <-.
           ++ intros [H | H]; exfalso; apply H; reflexivity.
           ++ intros _. split; [exact Hpw|]. split; [reflexivity|].
              exists (file :: pngFiles). repeat split. discriminate.
        -- simpl. intros Hj. injection Hj as <-.
           intros [H | H]; exfalso; apply H; reflexivity.
      * simpl. intros Hj. injection Hj as <-.
        intros [H | H]; exfalso; apply H; reflexivity.
    + simpl. intros Hj. injection Hj as <-.
      intros [H | H]; exfalso; apply H; reflexivity.
  - apply issued_token_valid.
Qed.

(** PNG mode is requested for a document that has no page image: the
    login succeeds with the standard response, and its token is accepted by a
    fetch a minute later. *)
Lemma png_mode_needs_pages_witness :
  let b := {| password := JStr "hunter2"; isIOS := JBool true;
              pdfFilename := JStr "valid.pdf" |} in
  password b = JStr (PDF_PASSWORD demo_config)
  /\ png_mode_requested demo_config b = true
  /\ fst (V2.getPngListForPdf demo_config demo_fs (pdfFilename b) []) = Ret []
  /\ exists tok,
       fst (login Second demo_config demo_fs 1000 b)
       = res_json (JsObj [("success", JsBool true); ("token", JsToken tok);
                          ("expiresIn", JsNum 3600)])
       /\ token_accepted demo_config 61000 (Some tok) = true
       /\ status (fst (fetch Second demo_config demo_fs 61000
                         {| filename := "valid.pdf"; token := Some tok |})) = 200.
Proof.
  intros b.
  assert (Hpw : password b = JStr (PDF_PASSWORD demo_config)) by reflexivity.
  assert (Hmode : png_mode_requested demo_config b = true) by reflexivity.
  assert (Hrun : fst (V2.getPngListForPdf demo_config demo_fs (pdfFilename b) []) = Ret [])
    by (vm_compute; reflexivity).
  split; [exact Hpw|]. split; [exact Hmode|]. split; [exact Hrun|].
  destruct (png_mode_needs_pages demo_config demo_fs 1000 b) as [Hreq _].
  destruct (Hreq Hpw Hmode [] Hrun) as [Hempty _].
  destruct (Hempty eq_refl) as (tok & Hresp & Htok & Hvalid & _).
  exists tok. split; [exact Hresp|]. split; [apply Hvalid; lia|].
  rewrite Htok. vm_compute. reflexivity.
Defined.

Example login_png_mode :
  fst (login Second demo_config demo_fs 1000
         {| password := JStr "hunter2"; isIOS := JBool true;
            pdfFilename := JStr "report.pdf" |})
  = png_response (issued_token demo_config 1000)
      ["report-1.png"; "report-2.png"; "report-10.png"].
Proof. vm_compute. reflexivity. Qed.

(** ** The fixed-window counter *)

Section FixedWindow.
Import RateLimiter.
Variables (limits : route_class -> Z * Z) (identity : string) (rc : route_class).

Let windowWidth : Z := fst (limits rc).
Let maxCount : Z := snd (limits rc).

Lemma allow_fresh (now : Z) (table : gmap (string * route_class) RateWindow) :
  table !! (identity, rc) = None ->
  allow limits now identity rc table
  = (true, <[(identity, rc) := {| startedAt := now; count := 1 |}]> table).
Proof.
  intros H. unfold allow. destruct (limits rc) as [w m]. rewrite H. reflexivity.
Qed.

Lemma allow_expired (now : Z) (table : gmap (string * route_class) RateWindow) w :
  table !! (identity, rc) = Some w -> windowWidth < now - startedAt w ->
  allow limits now identity rc table
  = (true, <[(identity, rc) := {| startedAt := now; count := 1 |}]> table).
Proof.
  unfold windowWidth. intros H Hage. unfold allow.
  destruct (limits rc) as [width m]. rewrite H. simpl in Hage.
  replace (now - startedAt w >? width) with true by lia. reflexivity.
Qed.

Lemma allow_counted (now : Z) (table : gmap (string * route_class) RateWindow) w :
  table !! (identity, rc) = Some w -> now - startedAt w <= windowWidth ->
  allow limits now identity rc table
  = (count w + 1 <=? maxCount,
     <[(identity, rc) := {| startedAt := startedAt w; count := count w + 1 |}]> table).
Proof.
  unfold windowWidth, maxCount. intros H Hage. unfold allow.
  destruct (limits rc) as [width m]. rewrite H. simpl in *.
  replace (now - startedAt w >? width) with false by lia. reflexivity.
Qed.

(** A call for one key leaves the windows of the other keys alone. *)
Lemma allow_other_key (now : Z) (table : gmap (string * route_class) RateWindow) k :
  k <> (identity, rc) ->
  snd (allow limits now identity rc table) !! k = table !! k.
Proof.
  intros Hk. unfold allow. destruct (limits rc) as [width m].
  destruct (table !! (identity, rc)) as [w|]; [destruct (now - startedAt w >? width)|];
    simpl; apply lookup_insert_ne; congruence.
Qed.

(** Calls inside an open window: the [i]-th of them sees the count raised
    by [i], and is allowed while that count is at most the maximum. *)
Lemma allow_all_in_window times :
  forall (table : gmap (string * route_class) RateWindow) t0 c,
    table !! (identity, rc) = Some {| startedAt := t0; count := c |} ->
    Forall (fun t => t - t0 <= windowWidth) times ->
    fst (allow_all limits identity rc times table)
    = map (fun i => c + 1 + Z.of_nat i <=? maxCount) (seq 0 (length times))
    /\ snd (allow_all limits identity rc times table) !! (identity, rc)
       = Some {| startedAt := t0; count := c + Z.of_nat (length times) |}.
Proof.
  induction times as [|t times IH]; intros table t0 c Hw Hin.
  - simpl. rewrite Z.add_0_r. auto.
  - inversion Hin as [|t' times' Ht Htimes]; subst.
    simpl allow_all. rewrite (allow_counted t table _ Hw) by exact Ht. simpl startedAt.
    simpl count.
    specialize (IH (<[(identity, rc) := {| startedAt := t0; count := c + 1 |}]> table)
                  t0 (c + 1) (lookup_insert_eq _ _ _) Htimes).
    destruct (allow_all limits identity rc times _) as [oks table'] eqn:Hrun.
    simpl in IH. destruct IH as [Hoks Htable]. simpl. split.
    + rewrite Z.add_0_r. f_equal. rewrite Hoks, <- seq_shift, map_map.
      apply map_ext. intros i. f_equal. lia.
    + rewrite Htable. f_equal. f_equal. lia.
Qed.

End FixedWindow.

Lemma allow_all_app (limits : RateLimiter.route_class -> Z * Z) (identity : string)
    (rc : RateLimiter.route_class) (times1 times2 : list Z)
    (table : gmap (string * RateLimiter.route_class) RateLimiter.RateWindow) :
  RateLimiter.allow_all limits identity rc (times1 ++ times2) table
  = let '(oks1, table1) := RateLimiter.allow_all limits identity rc times1 table in
    let '(oks2, table2) := RateLimiter.allow_all limits identity rc times2 table1 in
    (oks1 ++ oks2, table2).
Proof.
  revert table. induction times1 as [|t times1 IH]; intros table; simpl.
  - destruct (RateLimiter.allow_all limits identity rc times2 table). reflexivity.
  - destruct (RateLimiter.allow limits t identity rc table) as [ok table'].
    rewrite IH.
    destruct (RateLimiter.allow_all limits identity rc times1 table') as [oks1 table1].
    destruct (RateLimiter.allow_all limits identity rc times2 table1). reflexivity.
Qed.

(** C7.  One call of [allow] starts a fresh window with count 1 and allows
    when the key has no window or its window is older than the width;
    otherwise it increments the count and allows exactly when the new count
    is at most the maximum.  For a key without a window, a first call and the
    calls that follow it inside the window are allowed while their number
    is at most the maximum, and the first call after the window is allowed;
    with a maximum of 10 the results of eleven calls inside the window and
    one after it are ten times true, false, true. *)
Theorem fixed_window_counter (limits : RateLimiter.route_class -> Z * Z)
    (identity : string) (rc : RateLimiter.route_class)
    (table : gmap (string * RateLimiter.route_class) RateLimiter.RateWindow) :
  let windowWidth := fst (limits rc) in
  let maxCount := snd (limits rc) in
  let fresh now :=
    <[(identity, rc) := {| RateLimiter.startedAt := now; RateLimiter.count := 1 |}]> table in
  (forall now,
     table !! (identity, rc) = None ->
     RateLimiter.allow limits now identity rc table = (true, fresh now))
  /\ (forall now w,
        table !! (identity, rc) = Some w ->
        windowWidth < now - RateLimiter.startedAt w ->
        RateLimiter.allow limits now identity rc table = (true, fresh now))
  /\ (forall now w,
        table !! (identity, rc) = Some w ->
        now - RateLimiter.startedAt w <= windowWidth ->
        RateLimiter.allow limits now identity rc table
        = (RateLimiter.count w + 1 <=? maxCount,
           <[(identity, rc) := {| RateLimiter.startedAt := RateLimiter.startedAt w;
                                  RateLimiter.count := RateLimiter.count w + 1 |}]> table))
  /\ (forall t0 times t',
        table !! (identity, rc) = None ->
        Forall (fun t => t - t0 <= windowWidth) times ->
        windowWidth < t' - t0 ->
        fst (RateLimiter.allow_all limits identity rc (t0 :: times ++ [t']) table)
        = true :: map (fun i => Z.of_nat i + 2 <=? maxCount) (seq 0 (length times)) ++ [true])
  /\ (maxCount = 10 ->
      forall t0 times t',
        table !! (identity, rc) = None ->
        length times = 10%nat ->
        Forall (fun t => t - t0 <= windowWidth) times ->
        windowWidth < t' - t0 ->
        fst (RateLimiter.allow_all limits identity rc (t0 :: times ++ [t']) table)
        = repeat true 10 ++ [false; true]).
Proof.
  intros windowWidth maxCount fresh.
  assert (Hrun : forall t0 times t',
             table !! (identity, rc) = None ->
             Forall (fun t => t - t0 <= windowWidth) times ->
             windowWidth < t' - t0 ->
             fst (RateLimiter.allow_all limits identity rc (t0 :: times ++ [t']) table)
             = true :: map (fun i => Z.of_nat i + 2 <=? maxCount) (seq 0 (length times))
                 ++ [true]).
  { intros t0 times t' Hnone Hin Hout. simpl RateLimiter.allow_all.
    rewrite (allow_fresh limits identity rc t0 table Hnone).
    rewrite allow_all_app.
    destruct (allow_all_in_window limits identity rc times (fresh t0) t0 1
                (lookup_insert_eq _ _ _) Hin) as [Hoks Htable].
    destruct (RateLimiter.allow_all limits identity rc times _) as [oks table1].
    simpl in Hoks, Htable. simpl RateLimiter.allow_all.
    rewrite (allow_expired limits identity rc t' table1 _ Htable) by exact Hout.
    simpl. f_equal. f_equal. rewrite Hoks. apply map_ext. intros i. f_equal. lia. }
  split; [|split; [|split; [|split]]].
  - intros now. apply allow_fresh.
  - intros now w. apply allow_expired.
  - intros now w. apply allow_counted.
  - exact Hrun.
  - intros Hmax t0 times t' Hnone Hlen Hin Hout.
    rewrite (Hrun t0 times t' Hnone Hin Hout), Hlen, Hmax. reflexivity.
Qed.

(** The PDF limiter of the first variant (5 minutes, 10 requests): eleven
    requests of one client in the first 11 seconds and one after 5 minutes
    and a millisecond. *)
Lemma fixed_window_counter_witness :
  let limits := RateLimiter.limits_of V1.limiter V1.pdfLimiter in
  let times := [1000; 2000; 3000; 4000; 5000; 6000; 7000; 8000; 9000; 10000] in
  snd (limits RateLimiter.Asset) = 10
  /\ fst (RateLimiter.allow_all limits "203.0.113.7" RateLimiter.Asset
            (0 :: times ++ [300001]) ∅)
     = repeat true 10 ++ [false; true].
Proof.
  intros limits times. split; [reflexivity|].
  apply (fixed_window_counter limits "203.0.113.7" RateLimiter.Asset ∅).
  - reflexivity.
  - reflexivity.
  - reflexivity.
  - repeat constructor; vm_compute; discriminate.
  - reflexivity.
Defined.

(** ** The scenarios of the specification, run on the model *)

Example names_of_the_specification :
  map filename_matches
    ["../../etc/passwd.pdf"; "a/b.pdf"; "noextension"; "..%2f..%2fsecret.pdf";
     "../../secret.pdf"; ".pdf"; "valid.pdf"; "report-2024_v1.2.pdf"]
  = [false; false; false; false; false; false; true; true].
Proof. vm_compute. reflexivity. Qed.

Example fetch_within_ttl :
  let b := {| password := JStr "hunter2"; isIOS := JUndefined; pdfFilename := JUndefined |} in
  fst (login First demo_config demo_fs 5000 b)
  = standard_response (issued_token demo_config 5000)
  /\ fetch First demo_config demo_fs 65000
       {| filename := "valid.pdf"; token := Some (issued_token demo_config 5000) |}
     = ({| status := 200; headers := pdf_headers First "valid.pdf";
           payload := Piped "/app/pdfs/valid.pdf" |},
        [ExistsSync "/app/pdfs/valid.pdf"; CreateReadStream "/app/pdfs/valid.pdf"]).
Proof. split; vm_compute; reflexivity. Qed.

Example fetch_after_ttl :
  fetch Second demo_config demo_fs (5000 + 3600 * 1000 + 1)
    {| filename := "valid.pdf"; token := Some (issued_token demo_config 5000) |}
  = (unauthorized "Invalid token", []).
Proof. vm_compute. reflexivity. Qed.

Example fetch_with_flipped_signature :
  fetch Second demo_config demo_fs 65000
    {| filename := "valid.pdf";
       token := Some (jwt_sign (JBool true) 5000 "another-key" 5000) |}
  = (unauthorized "Invalid token", []).
Proof. vm_compute. reflexivity. Qed.

Example fetch_traversal_attempt :
  fetch Second demo_config demo_fs 65000
    {| filename := "../../secret.pdf"; token := Some (issued_token demo_config 5000) |}
  = (invalid_name, []).
Proof. vm_compute. reflexivity. Qed.

(** The expiry check of the handler itself is reached by a token whose
    [exp] lies later than its [timestamp] plus an hour. *)
Example fetch_stale_timestamp :
  fetch First demo_config demo_fs (3600 * 1000 + 1)
    {| filename := "valid.pdf";
       token := Some (Jws "signing-key"
                        {| authenticated := JBool true; timestamp := Some 0;
                           iat := Some 0; exp := None |}) |}
  = (unauthorized "Token expired", []).
Proof. vm_compute. reflexivity. Qed.

(** * Further properties of the handlers *)

(** ** The outcomes of [GET /pdf/:filename] *)

Section FetchOutcomes.
Variables (v : variant) (cfg : config) (fs : gmap string fs_node) (now : Z).

Lemma filename_matches_false name : ~ in_grammar name -> filename_matches name = false.
Proof.
  intros Hng. destruct (filename_matches name) eqn:Hm; [|reflexivity].
  apply filename_matches_grammar in Hm. contradiction.
Qed.

Lemma fetch_invalid_name req :
  token_accepted cfg now (token req) = true -> ~ in_grammar (filename req) ->
  fetch v cfg fs now req = (invalid_name, []).
Proof.
  intros Hacc Hng. rewrite (fetch_accepted v cfg fs now req Hacc).
  rewrite (filename_matches_false _ Hng). reflexivity.
Qed.

Lemma fetch_absent req :
  token_accepted cfg now (token req) = true -> in_grammar (filename req) ->
  fs !! pdf_path cfg (filename req) = None ->
  fetch v cfg fs now req = (not_found, [ExistsSync (pdf_path cfg (filename req))]).
Proof.
  intros Hacc Hg Hfs. rewrite (fetch_accepted v cfg fs now req Hacc).
  apply filename_matches_grammar in Hg. rewrite Hg. simpl. rewrite Hfs. reflexivity.
Qed.

Lemma fetch_present req :
  token_accepted cfg now (token req) = true -> in_grammar (filename req) ->
  fs !! pdf_path cfg (filename req) = Some File ->
  fetch v cfg fs now req
  = ({| status := 200; headers := pdf_headers v (filename req);
        payload := Piped (pdf_path cfg (filename req)) |},
     [ExistsSync (pdf_path cfg (filename req));
      CreateReadStream (pdf_path cfg (filename req))]).
Proof.
  intros Hacc Hg Hfs. rewrite (fetch_accepted v cfg fs now req Hacc).
  apply filename_matches_grammar in Hg. rewrite Hg. simpl. rewrite Hfs. reflexivity.
Qed.

Lemma fetch_directory req entries :
  token_accepted cfg now (token req) = true -> in_grammar (filename req) ->
  fs !! pdf_path cfg (filename req) = Some (Dir entries) ->
  fetch v cfg fs now req
  = (no_response,
     [ExistsSync (pdf_path cfg (filename req));
      CreateReadStream (pdf_path cfg (filename req))]).
Proof.
  intros Hacc Hg Hfs. rewrite (fetch_accepted v cfg fs now req Hacc).
  apply filename_matches_grammar in Hg. rewrite Hg. simpl. rewrite Hfs. reflexivity.
Qed.

(** The five cases of a fetch: exactly one of them applies. *)
Lemma fetch_cases req :
  (token_accepted cfg now (token req) = false
   /\ exists msg, fetch v cfg fs now req = (unauthorized msg, []))
  \/ (token_accepted cfg now (token req) = true /\ ~ in_grammar (filename req)
      /\ fetch v cfg fs now req = (invalid_name, []))
  \/ (token_accepted cfg now (token req) = true /\ in_grammar (filename req)
      /\ fs !! pdf_path cfg (filename req) = None
      /\ fetch v cfg fs now req = (not_found, [ExistsSync (pdf_path cfg (filename req))]))
  \/ (token_accepted cfg now (token req) = true /\ in_grammar (filename req)
      /\ fs !! pdf_path cfg (filename req) = Some File
      /\ fetch v cfg fs now req
         = ({| status := 200; headers := pdf_headers v (filename req);
               payload := Piped (pdf_path cfg (filename req)) |},
            [ExistsSync (pdf_path cfg (filename req));
             CreateReadStream (pdf_path cfg (filename req))]))
  \/ (token_accepted cfg now (token req) = true /\ in_grammar (filename req)
      /\ (exists entries, fs !! pdf_path cfg (filename req) = Some (Dir entries))
      /\ fetch v cfg fs now req
         = (no_response,
            [ExistsSync (pdf_path cfg (filename req));
             CreateReadStream (pdf_path cfg (filename req))])).
Proof.
  destruct (token_accepted cfg now (token req)) eqn:Hacc.
  - right. destruct (filename_matches (filename req)) eqn:Hm.
    + apply filename_matches_grammar in Hm. right.
      destruct (fs !! pdf_path cfg (filename req)) as [[|entries]|] eqn:Hfs.
      * right. left. repeat split; auto. apply fetch_present; auto.
      * right. right. repeat split; eauto. eapply fetch_directory; eauto.
      * left. repeat split; auto. apply fetch_absent; auto.
    + left. assert (Hng : ~ in_grammar (filename req)).
      { intros Hg. apply filename_matches_grammar in Hg. congruence. }
      repeat split; auto. apply fetch_invalid_name; auto.
  - left. split; [reflexivity|]. apply fetch_refused, Hacc.
Qed.

End FetchOutcomes.

(** X1.  A fetch has five outcomes, each for exactly one situation: 401 for
    a token that the checks refuse, 400 for an accepted token with a name
    outside the grammar, 404 for an accepted token with a name of the grammar
    whose key is absent, 200 when the key is a file, and no response at all
    when the key is a directory: the existence check passes, the stream fails,
    and the process exits.  The 200 response pipes the file of the key after
    one existence check. *)
Theorem fetch_status_decides (v : variant) (cfg : config) (fs : gmap string fs_node)
    (now : Z) (req : fetch_request) :
  let r := fetch v cfg fs now req in
  let key := pdf_path cfg (filename req) in
  (status (fst r) = 401 <-> token_accepted cfg now (token req) = false)
  /\ (status (fst r) = 400 <->
      token_accepted cfg now (token req) = true /\ ~ in_grammar (filename req))
  /\ (status (fst r) = 404 <->
      token_accepted cfg now (token req) = true /\ in_grammar (filename req)
      /\ fs !! key = None)
  /\ (status (fst r) = 200 <->
      token_accepted cfg now (token req) = true /\ in_grammar (filename req)
      /\ fs !! key = Some File)
  /\ (fst r = no_response <->
      token_accepted cfg now (token req) = true /\ in_grammar (filename req)
      /\ exists entries, fs !! key = Some (Dir entries))
  /\ (status (fst r) = 200 ->
      payload (fst r) = Piped key /\ snd r = [ExistsSync key; CreateReadStream key])
  /\ (fst r = no_response -> snd r = [ExistsSync key; CreateReadStream key]).
Proof.
  intros r key. subst r key.
  destruct (fetch_cases v cfg fs now req)
    as [[Hacc [msg Hr]] | [(Hacc & Hng & Hr) | [(Hacc & Hg & Hfs & Hr)
        | [(Hacc & Hg & Hfs & Hr) | (Hacc & Hg & [entries Hfs] & Hr)]]]];
    rewrite Hr; simpl; rewrite Hacc; try rewrite Hfs;
    repeat split; try discriminate; eauto;
    try (intros; intuition (try discriminate; try congruence); fail);
    try (intros (_ & _ & entries' & H); discriminate).
Qed.

(** A fresh token and a name of the grammar: a stored file is served; a
    directory of that name brings no response. *)
Lemma fetch_status_decides_witness :
  let req := {| filename := "valid.pdf"; token := Some (issued_token demo_config 0) |} in
  let dir_fs : gmap string fs_node := <["/app/pdfs/valid.pdf" := Dir []]> ∅ in
  status (fst (fetch First demo_config demo_fs 1000 req)) = 200
  /\ payload (fst (fetch First demo_config demo_fs 1000 req)) = Piped "/app/pdfs/valid.pdf"
  /\ fst (fetch First demo_config dir_fs 1000 req) = no_response.
Proof.
  intros req dir_fs.
  assert (H200 : status (fst (fetch First demo_config demo_fs 1000 req)) = 200)
    by (vm_compute; reflexivity).
  split; [exact H200|]. split.
  - apply (fetch_status_decides First demo_config demo_fs 1000 req). exact H200.
  - apply (fetch_status_decides First demo_config dir_fs 1000 req).
    split; [reflexivity|]. split; [apply filename_matches_grammar; reflexivity|].
    exists []. reflexivity.
Defined.

(** X2.  A fetch tells nothing about the storage before its checks have
    passed: when the token is refused, the response is the same for every
    name and every state of the storage; when the name is outside the grammar,
    the response is the same for every state of the storage.  In both cases no
    storage call is made. *)
Theorem fetch_blind_until_checked (v : variant) (cfg : config) (now : Z)
    (req : fetch_request) :
  (token_accepted cfg now (token req) = false ->
   forall fs fs' name',
     fetch v cfg fs now req
     = fetch v cfg fs' now {| filename := name'; token := token req |}
     /\ snd (fetch v cfg fs now req) = [])
  /\ (~ in_grammar (filename req) ->
      forall fs fs',
        fetch v cfg fs now req = fetch v cfg fs' now req
        /\ snd (fetch v cfg fs now req) = []).
Proof.
  split.
  - intros Hacc fs fs' name'. rewrite !fetch_run. simpl token. unfold token_accepted in Hacc.
    destruct (jwt_verify (token req) (JWT_SECRET cfg) now) as [d|e]; [|auto].
    destruct (truthy (authenticated d)); simpl in *; [|auto].
    destruct (token_age_exceeds now (timestamp d)); simpl in *; [auto|discriminate].
  - intros Hng fs fs'.
    destruct (token_accepted cfg now (token req)) eqn:Hacc.
    + rewrite !(fetch_invalid_name v cfg _ now req Hacc Hng). auto.
    + rewrite !fetch_run. unfold token_accepted in Hacc.
      destruct (jwt_verify (token req) (JWT_SECRET cfg) now) as [d|e]; [|auto].
      destruct (truthy (authenticated d)); simpl in *; [|auto].
      destruct (token_age_exceeds now (timestamp d)); simpl in *; [auto|discriminate].
Qed.

(** Without a token, a name that exists and a name that does not get the
    same answer, on the demo storage and on an empty one. *)
Lemma fetch_blind_until_checked_witness :
  fetch Second demo_config demo_fs 0 {| filename := "valid.pdf"; token := None |}
  = fetch Second demo_config ∅ 0 {| filename := "absent.pdf"; token := None |}.
Proof.
  apply (fetch_blind_until_checked Second demo_config 0
           {| filename := "valid.pdf"; token := None |}).
  reflexivity.
Defined.



Lemma pdf_path_chars cfg name :
  Str.chars (pdf_path cfg name)
  = Str.chars (dirname cfg) ++ Str.chars "/pdfs/" ++ Str.chars name.
Proof.
  unfold pdf_path, path_join. simpl String.concat.
  rewrite !chars_append. reflexivity.
Qed.

(** X4.  A served PDF forbids caching and indexing in both variants, and
    every other response of the route sets no header.  The file name that the
    second variant copies into [Content-Disposition] has passed the grammar
    before: it is made of grammar characters only, so it holds no double
    quote, no carriage return and no line feed. *)
Theorem served_pdf_headers (v : variant) (cfg : config) (fs : gmap string fs_node)
    (now : Z) (req : fetch_request) :
  let r := fst (fetch v cfg fs now req) in
  (status r <> 200 -> headers r = [])
  /\ (status r = 200 ->
      header_value "Content-Type" (headers r) = Some "application/pdf"
      /\ header_value "Cache-Control" (headers r) = Some "no-cache, no-store, must-revalidate"
      /\ header_value "Pragma" (headers r) = Some "no-cache"
      /\ header_value "Expires" (headers r) = Some "0"
      /\ header_value "X-Robots-Tag" (headers r)
         = Some "noindex, nofollow, noarchive, nosnippet"
      /\ header_value "Content-Disposition" (headers r)
         = match v with
           | First => None
           | Second => Some ("inline; filename=" +:+ dquote +:+ filename req +:+ dquote)
           end
      /\ Forall (fun c => name_char c = true) (Str.chars (filename req))
      /\ ~ contains (ascii_of_nat 34) (filename req)
      /\ ~ contains (ascii_of_nat 13) (filename req)
      /\ ~ contains (ascii_of_nat 10) (filename req)).
Proof.
  intros r. subst r.
  destruct (fetch_cases v cfg fs now req)
    as [[Hacc [msg Hr]] | [(Hacc & Hng & Hr) | [(Hacc & Hg & Hfs & Hr)
        | [(Hacc & Hg & Hfs & Hr) | (Hacc & Hg & Hfs & Hr)]]]];
    rewrite Hr; simpl; (split; [try reflexivity; try congruence | try discriminate]).
  intros _.
  assert (Hno : forall c, name_char c = false -> ~ contains c (filename req)).
  { intros c Hc Hin. exact (grammar_excludes_char c _ Hc Hin Hg). }
  destruct v; simpl; repeat split; auto using grammar_all_name_chars.
Qed.

Lemma served_pdf_headers_witness :
  let req := {| filename := "valid.pdf"; token := Some (issued_token demo_config 0) |} in
  status (fst (fetch Second demo_config demo_fs 1000 req)) = 200
  /\ header_value "Cache-Control" (headers (fst (fetch Second demo_config demo_fs 1000 req)))
     = Some "no-cache, no-store, must-revalidate".
Proof.
  intros req.
  assert (H : status (fst (fetch Second demo_config demo_fs 1000 req)) = 200)
    by (vm_compute; reflexivity).
  split; [exact H|].
  apply (served_pdf_headers Second demo_config demo_fs 1000 req). exact H.
Defined.

(** X5.  Every storage call of a fetch is an existence check or the
    opening of a read stream, on one key: [__dirname], ['/pdfs/'] and the
    requested name, a name that is a single path segment other than ['.'] and
    ['..'], so the key is a direct child of the PDF directory.  The route
    never lists a directory, and it opens a stream only on a key that the
    storage has. *)
Theorem fetch_keys_inside_pdfs (v : variant) (cfg : config) (fs : gmap string fs_node)
    (now : Z) (req : fetch_request) (ev : fs_event) :
  let key := pdf_path cfg (filename req) in
  In ev (snd (fetch v cfg fs now req)) ->
  (ev = ExistsSync key \/ ev = CreateReadStream key)
  /\ (forall q, ev <> ReaddirSync q)
  /\ Str.chars key = Str.chars (dirname cfg) ++ Str.chars "/pdfs/" ++ Str.chars (filename req)
  /\ ~ contains "/"%char (filename req)
  /\ ~ contains "\"%char (filename req)
  /\ filename req <> "." /\ filename req <> ".."
  /\ (ev = CreateReadStream key -> fs !! key <> None).
Proof.
  intros key. subst key.
  destruct (fetch_cases v cfg fs now req)
    as [[Hacc [msg Hr]] | [(Hacc & Hng & Hr) | [(Hacc & Hg & Hfs & Hr)
        | [(Hacc & Hg & Hfs & Hr) | (Hacc & Hg & [entries Hfs] & Hr)]]]];
    rewrite Hr; simpl.
  - intros [].
  - intros [].
  - destruct (valid_name_is_one_segment _ Hg) as (H1 & H2 & H3 & H4).
    pose proof (pdf_path_chars cfg (filename req)) as Hchars.
    intros [<- | []]. repeat split; auto; discriminate.
  - destruct (valid_name_is_one_segment _ Hg) as (H1 & H2 & H3 & H4).
    pose proof (pdf_path_chars cfg (filename req)) as Hchars.
    intros [<- | [<- | []]]; repeat split; auto; try discriminate; congruence.
  - destruct (valid_name_is_one_segment _ Hg) as (H1 & H2 & H3 & H4).
    pose proof (pdf_path_chars cfg (filename req)) as Hchars.
    intros [<- | [<- | []]]; repeat split; auto; try discriminate; congruence.
Qed.

Lemma fetch_keys_inside_pdfs_witness :
  let req := {| filename := "valid.pdf"; token := Some (issued_token demo_config 0) |} in
  In (CreateReadStream "/app/pdfs/valid.pdf") (snd (fetch First demo_config demo_fs 1000 req))
  /\ Str.chars "/app/pdfs/valid.pdf"
     = Str.chars (dirname demo_config) ++ Str.chars "/pdfs/" ++ Str.chars (filename req)
  /\ demo_fs !! "/app/pdfs/valid.pdf" <> None.
Proof.
  intros req.
  assert (H : In (CreateReadStream "/app/pdfs/valid.pdf")
                (snd (fetch First demo_config demo_fs 1000 req)))
    by (vm_compute; auto).
  destruct (fetch_keys_inside_pdfs First demo_config demo_fs 1000 req _ H)
    as (_ & _ & Hchars & _ & _ & _ & _ & Hex).
  split; [exact H|]. split; [exact Hchars|]. apply Hex. reflexivity.
Defined.

(** X6.  The token checks only get stricter as time passes: a token that is
    let through at some time is let through at every earlier time, so a token
    that has been refused is refused from then on. *)
Theorem token_never_revives (v : variant) (cfg : config) (fs : gmap string fs_node)
    (now later : Z) (req : fetch_request) :
  now <= later ->
  (past_token_check (fst (fetch v cfg fs later req)) ->
   past_token_check (fst (fetch v cfg fs now req)))
  /\ (status (fst (fetch v cfg fs now req)) = 401 ->
      status (fst (fetch v cfg fs later req)) = 401).
Proof.
  intros Hle.
  assert (Hmono : token_accepted cfg later (token req) = true ->
                  token_accepted cfg now (token req) = true).
  { rewrite !token_accepted_spec. intros (p & Htok & Hexp & Ha & Hage).
    exists p. repeat split; auto.
    - intros e He. specialize (Hexp e He).
      assert (now / 1000 <= later / 1000) by (apply Z.div_le_mono; lia). lia.
    - intros t Ht. specialize (Hage t Ht). lia. }
  split.
  - rewrite !past_token_check_accepted. exact Hmono.
  - intros H401.
    destruct (token_accepted cfg later (token req)) eqn:Hlater.
    + specialize (Hmono eq_refl).
      apply (past_token_check_accepted v cfg fs now req) in Hmono. contradiction.
    + destruct (fetch_refused v cfg fs later req Hlater) as [msg ->]. reflexivity.
Qed.

Lemma token_never_revives_witness :
  let req := {| filename := "valid.pdf"; token := Some (issued_token demo_config 0) |} in
  3600000 <= 7200000
  /\ status (fst (fetch First demo_config demo_fs 3600000 req)) = 401
  /\ status (fst (fetch First demo_config demo_fs 7200000 req)) = 401.
Proof.
  intros req.
  assert (Hle : 3600000 <= 7200000) by lia.
  assert (H : status (fst (fetch First demo_config demo_fs 3600000 req)) = 401)
    by (vm_compute; reflexivity).
  split; [exact Hle|]. split; [exact H|].
  apply (token_never_revives First demo_config demo_fs 3600000 7200000 req Hle). exact H.
Defined.

(** ** The two name checks *)

Section NameChecks.
Import Regex.

Lemma length_chars s : length (Str.chars s) = String.length s.
Proof. unfold Str.chars. induction s as [|c s IH]; simpl; [reflexivity | rewrite IH; reflexivity]. Qed.

(** The shape of both regular expressions of the routes: a non-empty run
    of grammar characters and a literal extension. *)
Lemma name_re_grammar ext w :
  accepts (Cat (Plus (Class name_class)) (Lit ext)) w = true <->
  exists stem,
    stem <> [] /\ Forall (fun c => name_char c = true) stem /\ w = stem ++ ext.
Proof.
  rewrite accepts_Matches. split.
  - intros H. apply Matches_Cat_inv in H as (u & x & Hw & Hu & Hx).
    apply Matches_Plus_Class in Hu as [Hne Hall]. apply Matches_Lit in Hx as ->.
    apply Forall_name_class in Hall. exists u. auto.
  - intros (stem & Hne & Hall & ->). apply Forall_name_class in Hall. constructor.
    + apply Matches_Plus_Class. auto.
    + apply Matches_Lit. reflexivity.
Qed.

Lemma png_filename_matches_grammar name :
  png_filename_matches name = true <-> in_png_grammar name.
Proof. apply name_re_grammar. Qed.

(** A match, without the regular expression: longer than the extension,
    ending in it, and made of grammar characters throughout. *)
Lemma grammar_as_checks ext name :
  Forall (fun c => name_char c = true) (Str.chars ext) ->
  (exists stem,
     stem <> [] /\ Forall (fun c => name_char c = true) stem /\
     Str.chars name = stem ++ Str.chars ext) <->
  (String.length ext <? String.length name)%nat
  && Str.endsWith name ext && forallb name_char (Str.chars name) = true.
Proof.
  intros Hext. rewrite !andb_true_iff, Nat.ltb_lt, forallb_forall, <- List.Forall_forall.
  rewrite <- !length_chars. split.
  - intros (stem & Hne & Hall & Heq). repeat split.
    + rewrite Heq, length_app. destruct stem; [congruence|]. simpl. lia.
    + apply endsWith_chars. eauto.
    + rewrite Heq. apply Forall_app. auto.
  - intros [[Hlen Hends] Hall]. apply endsWith_chars in Hends as [front Heq].
    exists front. rewrite Heq in Hall, Hlen. apply Forall_app in Hall as [Hfront _].
    repeat split; auto. intros ->. simpl in Hlen. lia.
Qed.

End NameChecks.

(** X7.  The name check of each route is three plain tests: the name is
    longer than the four characters of the extension, it ends in the
    extension in lower case, and every character of it is a letter, a digit,
    ['.'], ['_'] or ['-']. *)
Theorem name_checks_as_tests (name : string) :
  filename_matches name
  = (4 <? String.length name)%nat && Str.endsWith name ".pdf"
    && forallb name_char (Str.chars name)
  /\ png_filename_matches name
     = (4 <? String.length name)%nat && Str.endsWith name ".png"
       && forallb name_char (Str.chars name).
Proof.
  split; apply eq_true_iff_eq.
  - rewrite filename_matches_grammar. apply (grammar_as_checks ".pdf"). repeat constructor.
  - rewrite png_filename_matches_grammar. apply (grammar_as_checks ".png"). repeat constructor.
Qed.

Lemma ends_differ name :
  Str.endsWith name ".pdf" = true -> Str.endsWith name ".png" = true -> False.
Proof.
  intros H1 H2. apply endsWith_chars in H1 as [f1 H1]. apply endsWith_chars in H2 as [f2 H2].
  rewrite H1 in H2. apply (f_equal (@rev ascii)) in H2.
  rewrite !rev_app_distr in H2. simpl in H2. discriminate.
Qed.

(** X8.  No name passes the name check of both routes; a request that is
    past the token checks is answered 400 by at least one of them. *)
Theorem routes_share_no_name (cfg : config) (fs : gmap string fs_node) (now : Z)
    (req : fetch_request) :
  filename_matches (filename req) && png_filename_matches (filename req) = false
  /\ (token_accepted cfg now (token req) = true ->
      status (fst (fetch Second cfg fs now req)) = 400
      \/ status (fst (fetch_png cfg fs now req)) = 400).
Proof.
  assert (Hdis : filename_matches (filename req) && png_filename_matches (filename req) = false).
  { apply not_true_is_false. intros H. apply andb_true_iff in H as [Hpdf Hpng].
    apply filename_matches_grammar, grammar_ends_with_pdf in Hpdf.
    apply png_filename_matches_grammar in Hpng as (stem & _ & _ & Hpng).
    apply (ends_differ (filename req)); [exact Hpdf|]. apply endsWith_chars. eauto. }
  split; [exact Hdis|].
  intros Hacc. destruct (filename_matches (filename req)) eqn:Hpdf.
  - right. simpl in Hdis. unfold fetch_png, express_run, get_png, try_catch, bind, lift, ret.
    unfold token_accepted in Hacc.
    destruct (jwt_verify (token req) (JWT_SECRET cfg) now) as [d|e]; [|discriminate].
    apply andb_true_iff in Hacc as [-> Hage]. apply negb_true_iff in Hage as ->.
    rewrite Hdis. reflexivity.
  - left. rewrite (fetch_accepted Second cfg fs now req Hacc), Hpdf. reflexivity.
Qed.

Lemma routes_share_no_name_witness :
  let req := {| filename := "report-1.png"; token := Some (issued_token demo_config 0) |} in
  token_accepted demo_config 1000 (token req) = true
  /\ (status (fst (fetch Second demo_config demo_fs 1000 req)) = 400
      \/ status (fst (fetch_png demo_config demo_fs 1000 req)) = 400).
Proof.
  intros req. split; [reflexivity|].
  apply (routes_share_no_name demo_config demo_fs 1000 req). reflexivity.
Defined.

(** ** [GET /png/:filename] *)

Section FetchPng.
Variables (cfg : config) (fs : gmap string fs_node) (now : Z).

Lemma fetch_png_run req :
  fetch_png cfg fs now req =
    match jwt_verify (token req) (JWT_SECRET cfg) now with
    | Throw _ => (unauthorized "Invalid token", [])
    | Ret decoded =>
        if negb (truthy (authenticated decoded)) then (unauthorized "Unauthorized", [])
        else if token_age_exceeds now (timestamp decoded) then (unauthorized "Token expired", [])
        else if negb (png_filename_matches (filename req)) then (invalid_name, [])
        else
          let p := png_path cfg (filename req) in
          match fs !! p with
          | Some File =>
              ({| status := 200; headers := png_headers; payload := Piped p |},
               [ExistsSync p; CreateReadStream p])
          | Some (Dir _) => (no_response, [ExistsSync p; CreateReadStream p])
          | None => (res_status_json 404 (error_json "PNG not found"), [ExistsSync p])
          end
    end.
Proof.
  unfold fetch_png, get_png, express_run, try_catch, bind, lift, ret.
  destruct (jwt_verify (token req) (JWT_SECRET cfg) now) as [decoded|e]; [|reflexivity].
  destruct (truthy (authenticated decoded)); simpl; [|reflexivity].
  destruct (token_age_exceeds now (timestamp decoded)); simpl; [reflexivity|].
  destruct (png_filename_matches (filename req)); simpl; [|reflexivity].
  unfold existsSync, createReadStream, png_path; simpl.
  destruct (fs !! path_join [dirname cfg; "pngs"; filename req]) as [[|entries]|] eqn:Hfs;
    [rewrite bool_decide_eq_true_2 by eauto
    |rewrite bool_decide_eq_true_2 by eauto
    |rewrite bool_decide_eq_false_2 by (intros [? ?]; discriminate)];
    reflexivity.
Qed.

Lemma fetch_png_accepted req :
  token_accepted cfg now (token req) = true ->
  fetch_png cfg fs now req =
    if negb (png_filename_matches (filename req)) then (invalid_name, [])
    else
      let p := png_path cfg (filename req) in
      match fs !! p with
      | Some File =>
          ({| status := 200; headers := png_headers; payload := Piped p |},
           [ExistsSync p; CreateReadStream p])
      | Some (Dir _) => (no_response, [ExistsSync p; CreateReadStream p])
      | None => (res_status_json 404 (error_json "PNG not found"), [ExistsSync p])
      end.
Proof.
  rewrite fetch_png_run. unfold token_accepted.
  destruct (jwt_verify (token req) (JWT_SECRET cfg) now) as [d|e]; [|discriminate].
  intros H. apply andb_true_iff in H as [-> H]. apply negb_true_iff in H as ->.
  reflexivity.
Qed.

Lemma in_png_grammar_one_segment name :
  in_png_grammar name ->
  ~ contains "/"%char name /\ ~ contains "\"%char name /\ name <> "." /\ name <> "..".
Proof.
  intros (stem & Hne & Hall & Heq).
  assert (Hchars : Forall (fun c => name_char c = true) (Str.chars name)).
  { rewrite Heq. apply Forall_app. split; [exact Hall | repeat constructor]. }
  rewrite List.Forall_forall in Hchars.
  repeat split.
  - intros Hin. apply Hchars in Hin. discriminate.
  - intros Hin. apply Hchars in Hin. discriminate.
  - intros ->. destruct stem as [|? [|? ?]]; discriminate.
  - intros ->. destruct stem as [|? [|? [|? ?]]]; discriminate.
Qed.

Lemma png_path_chars name :
  Str.chars (png_path cfg name)
  = Str.chars (dirname cfg) ++ Str.chars "/pngs/" ++ Str.chars name.
Proof.
  unfold png_path, path_join. simpl String.concat.
  rewrite !chars_append. reflexivity.
Qed.

End FetchPng.

(** X9.  One token serves both routes: the PNG route lets a token through
    exactly when the PDF route of either variant does, whatever the two names
    and the storage, and a token that is refused gets the same response from
    both. *)
Theorem routes_share_token_checks (v : variant) (cfg : config)
    (fs fs' : gmap string fs_node) (now : Z) (req req' : fetch_request) :
  token req = token req' ->
  (past_token_check (fst (fetch_png cfg fs now req)) <->
   past_token_check (fst (fetch v cfg fs' now req')))
  /\ (status (fst (fetch_png cfg fs now req)) = 401 ->
      fetch_png cfg fs now req = fetch v cfg fs' now req').
Proof.
  intros Htok.
  destruct (token_accepted cfg now (token req)) eqn:Hacc.
  - assert (Hpng : past_token_check (fst (fetch_png cfg fs now req))).
    { rewrite (fetch_png_accepted cfg fs now req Hacc). unfold past_token_check.
      destruct (negb (png_filename_matches (filename req))); simpl; [discriminate|].
      destruct (fs !! png_path cfg (filename req)) as [[|entries]|]; simpl; discriminate. }
    split.
    + split; [|auto]. intros _. apply past_token_check_accepted. rewrite <- Htok. exact Hacc.
    + intros H401. contradiction.
  - assert (Heq : fetch_png cfg fs now req = fetch v cfg fs' now req'
                  /\ status (fst (fetch_png cfg fs now req)) = 401).
    { rewrite fetch_png_run, fetch_run, <- Htok. unfold token_accepted in Hacc.
      destruct (jwt_verify (token req) (JWT_SECRET cfg) now) as [d|e]; [|auto].
      destruct (truthy (authenticated d)); simpl in *; [|auto].
      destruct (token_age_exceeds now (timestamp d)); simpl in *; [auto|discriminate]. }
    destruct Heq as [Heq H401]. split; [|auto].
    unfold past_token_check. rewrite <- Heq. split; intros H; contradiction.
Qed.

Lemma routes_share_token_checks_witness :
  let pdf := {| filename := "valid.pdf"; token := Some (issued_token demo_config 0) |} in
  let png := {| filename := "report-1.png"; token := Some (issued_token demo_config 0) |} in
  token png = token pdf
  /\ (past_token_check (fst (fetch_png demo_config demo_fs 1000 png)) <->
      past_token_check (fst (fetch Second demo_config demo_fs 1000 pdf))).
Proof.
  intros pdf png. split; [reflexivity|].
  apply (routes_share_token_checks Second demo_config demo_fs demo_fs 1000 png pdf).
  reflexivity.
Defined.

(** X10.  The PNG route of the second variant: 401 for a refused token, 400
    for an accepted token with a name outside its grammar, 404 ('PNG not
    found') for a name of the grammar whose key is absent, 200 when the key is
    a file, and no response when the key is a directory (the stream fails and
    the process exits); the 200 response pipes the file and allows a private
    cache of one hour.  Every storage call is an existence check or the
    opening of a stream, made for an accepted token and a name of the grammar,
    on the key [__dirname], ['/pngs/'] and that name, which is a single path
    segment; the directory is never listed. *)
Theorem png_route_outcomes (cfg : config) (fs : gmap string fs_node) (now : Z)
    (req : fetch_request) :
  let r := fetch_png cfg fs now req in
  let key := png_path cfg (filename req) in
  (status (fst r) = 401 <-> token_accepted cfg now (token req) = false)
  /\ (status (fst r) = 400 <->
      token_accepted cfg now (token req) = true /\ ~ in_png_grammar (filename req))
  /\ (status (fst r) = 404 <->
      token_accepted cfg now (token req) = true /\ in_png_grammar (filename req)
      /\ fs !! key = None)
  /\ (status (fst r) = 200 <->
      token_accepted cfg now (token req) = true /\ in_png_grammar (filename req)
      /\ fs !! key = Some File)
  /\ (fst r = no_response <->
      token_accepted cfg now (token req) = true /\ in_png_grammar (filename req)
      /\ exists entries, fs !! key = Some (Dir entries))
  /\ (status (fst r) = 200 ->
      payload (fst r) = Piped key
      /\ header_value "Cache-Control" (headers (fst r)) = Some "private, max-age=3600"
      /\ header_value "Content-Type" (headers (fst r)) = Some "image/png"
      /\ snd r = [ExistsSync key; CreateReadStream key])
  /\ (forall ev, In ev (snd r) ->
      (ev = ExistsSync key \/ ev = CreateReadStream key)
      /\ (forall q, ev <> ReaddirSync q)
      /\ token_accepted cfg now (token req) = true
      /\ in_png_grammar (filename req)
      /\ Str.chars key
         = Str.chars (dirname cfg) ++ Str.chars "/pngs/" ++ Str.chars (filename req)
      /\ ~ contains "/"%char (filename req) /\ ~ contains "\"%char (filename req)
      /\ filename req <> "..").
Proof.
  intros r key. subst r key.
  destruct (token_accepted cfg now (token req)) eqn:Hacc.
  - rewrite (fetch_png_accepted cfg fs now req Hacc).
    destruct (png_filename_matches (filename req)) eqn:Hm; simpl.
    + pose proof (proj1 (png_filename_matches_grammar _) Hm) as Hg.
      destruct (in_png_grammar_one_segment _ Hg) as (H1 & H2 & H3 & H4).
      pose proof (png_path_chars cfg (filename req)) as Hchars.
      destruct (fs !! png_path cfg (filename req)) as [[|entries]|] eqn:Hfs; simpl.
      * split; [|split; [|split; [|split; [|split; [|split]]]]];
          [intuition (try discriminate; try congruence) .. | | |].
        -- split; [discriminate|]. intros (_ & _ & entries' & H). discriminate.
        -- intuition (try discriminate; try congruence).
        -- intros ev [<- | [<- | []]]; repeat split; auto; discriminate.
      * split; [|split; [|split; [|split; [|split; [|split]]]]];
          [intuition (try discriminate; try congruence) .. | | |].
        -- split; [eauto|reflexivity].
        -- intuition (try discriminate; try congruence).
        -- intros ev [<- | [<- | []]]; repeat split; auto; discriminate.
      * split; [|split; [|split; [|split; [|split; [|split]]]]];
          [intuition (try discriminate; try congruence) .. | | |].
        -- split; [discriminate|]. intros (_ & _ & entries' & H). discriminate.
        -- intuition (try discriminate; try congruence).
        -- intros ev [<- | []]; repeat split; auto; discriminate.
    + assert (Hng : ~ in_png_grammar (filename req)).
      { intros Hg. apply png_filename_matches_grammar in Hg. congruence. }
      split; [|split; [|split; [|split; [|split; [|split]]]]];
        [intuition (try discriminate; try congruence) .. | | |].
      * split; [discriminate|]. intros (_ & H & _). contradiction.
      * intuition (try discriminate; try congruence).
      * intros ev [].
  - assert (Hr : exists msg, fetch_png cfg fs now req = (unauthorized msg, [])).
    { rewrite fetch_png_run. unfold token_accepted in Hacc.
      destruct (jwt_verify (token req) (JWT_SECRET cfg) now) as [d|e]; [|eauto].
      destruct (truthy (authenticated d)); simpl in *; [|eauto].
      destruct (token_age_exceeds now (timestamp d)); simpl in *; [eauto|discriminate]. }
    destruct Hr as [msg ->]. simpl.
    split; [|split; [|split; [|split; [|split; [|split]]]]];
      [intuition (try discriminate; try congruence) .. | | |].
    + split; [discriminate|]. intros (H & _). discriminate.
    + intuition (try discriminate; try congruence).
    + intros ev [].
Qed.

Lemma png_route_outcomes_witness :
  let fs : gmap string fs_node :=
    <["/app/pngs/report-1.png" := File]> (<["/app/pngs/report-2.png" := Dir []]> demo_fs) in
  let req := {| filename := "report-1.png"; token := Some (issued_token demo_config 0) |} in
  let req2 := {| filename := "report-2.png"; token := Some (issued_token demo_config 0) |} in
  status (fst (fetch_png demo_config fs 1000 req)) = 200
  /\ payload (fst (fetch_png demo_config fs 1000 req)) = Piped "/app/pngs/report-1.png"
  /\ fst (fetch_png demo_config fs 1000 req2) = no_response.
Proof.
  intros fs req req2.
  assert (H : status (fst (fetch_png demo_config fs 1000 req)) = 200)
    by (vm_compute; reflexivity).
  split; [exact H|]. split.
  - apply (png_route_outcomes demo_config fs 1000 req). exact H.
  - apply (png_route_outcomes demo_config fs 1000 req2).
    split; [reflexivity|]. split; [apply png_filename_matches_grammar; reflexivity|].
    exists []. reflexivity.
Defined.

(** ** Logins, further *)

Section LoginFurther.
Variables (cfg : config) (fs : gmap string fs_node).

(** The response of a login with the secret whose manifest can be
    computed. *)
Lemma login_with_secret v t b :
  password b = JStr (PDF_PASSWORD cfg) -> manifest_computable v cfg fs b ->
  fst (login v cfg fs t b) = standard_response (issued_token cfg t)
  \/ exists pngFiles,
       fst (login v cfg fs t b) = png_response (issued_token cfg t) pngFiles.
Proof.
  intros Hpw Hcomp. apply strict_eq_string_spec in Hpw. destruct v.
  - rewrite login_first, Hpw. auto.
  - rewrite login_second, Hpw. simpl in Hcomp.
    destruct (png_mode_requested cfg b); [|auto].
    destruct (Hcomp eq_refl) as [[name Hname] Hdir]. rewrite Hname, getPngListForPdf_run.
    destruct (fs !! pngs_dir cfg) as [[|listing]|]; simpl; [contradiction | | auto].
    destruct (js_sort V2.by_page _); simpl; eauto.
Qed.

Lemma issued_token_fresh t now :
  now - t <= 3599 * 1000 -> token_accepted cfg now (Some (issued_token cfg t)) = true.
Proof. intros H. apply issued_token_accepted. Z.div_mod_to_equations. lia. Qed.

Lemma issued_token_stale t now :
  3600 * 1000 <= now - t -> token_accepted cfg now (Some (issued_token cfg t)) = false.
Proof.
  intros H. apply not_true_is_false. rewrite issued_token_accepted.
  Z.div_mod_to_equations. lia.
Qed.

End LoginFurther.

(** X11.  Login and fetch compose, also across the variants and the routes:
    the token in the response of a login with the secret, presented within
    3599 s for a name of the grammar whose key is a stored file, gets the file
    from the PDF route of either variant and from the PNG route; presented
    3600 s after the login or later it gets 401 and no storage call. *)
Theorem login_token_fetches (v v' : variant) (cfg : config) (fs : gmap string fs_node)
    (t now : Z) (b : auth_body) (name : string) :
  password b = JStr (PDF_PASSWORD cfg) ->
  manifest_computable v cfg fs b ->
  exists tok j,
    payload (fst (login v cfg fs t b)) = Json j
    /\ field "token" j = Some (JsToken tok)
    /\ (now - t <= 3599 * 1000 -> in_grammar name -> fs !! pdf_path cfg name = Some File ->
        fetch v' cfg fs now {| filename := name; token := Some tok |}
        = ({| status := 200; headers := pdf_headers v' name;
              payload := Piped (pdf_path cfg name) |},
           [ExistsSync (pdf_path cfg name); CreateReadStream (pdf_path cfg name)]))
    /\ (now - t <= 3599 * 1000 -> in_png_grammar name -> fs !! png_path cfg name = Some File ->
        fetch_png cfg fs now {| filename := name; token := Some tok |}
        = ({| status := 200; headers := png_headers; payload := Piped (png_path cfg name) |},
           [ExistsSync (png_path cfg name); CreateReadStream (png_path cfg name)]))
    /\ (3600 * 1000 <= now - t ->
        fetch v' cfg fs now {| filename := name; token := Some tok |}
        = (unauthorized "Invalid token", [])
        /\ fetch_png cfg fs now {| filename := name; token := Some tok |}
           = (unauthorized "Invalid token", [])).
Proof.
  intros Hpw Hcomp.
  assert (Hj : exists j, payload (fst (login v cfg fs t b)) = Json j
                         /\ field "token" j = Some (JsToken (issued_token cfg t))).
  { destruct (login_with_secret cfg fs v t b Hpw Hcomp) as [-> | [pngFiles ->]];
      eexists; split; reflexivity. }
  destruct Hj as (j & Hj & Htok). exists (issued_token cfg t), j.
  split; [exact Hj|]. split; [exact Htok|]. split; [|split].
  - intros Hfresh Hg Hfs.
    apply (fetch_present v' cfg fs now {| filename := name; token := _ |}); auto.
    apply issued_token_fresh, Hfresh.
  - intros Hfresh Hg Hfs.
    rewrite (fetch_png_accepted cfg fs now {| filename := name; token := _ |})
      by (apply issued_token_fresh; exact Hfresh).
    simpl filename. apply png_filename_matches_grammar in Hg. rewrite Hg. simpl.
    rewrite Hfs. reflexivity.
  - intros Hstale.
    assert (Hthrow : jwt_verify (Some (issued_token cfg t)) (JWT_SECRET cfg) now
                     = Throw TokenExpiredError).
    { unfold issued_token, jwt_sign, jwt_verify. rewrite String.eqb_refl. simpl.
      replace (now / 1000 >=? t / 1000 + 3600) with true; [reflexivity|].
      symmetry. apply Z.geb_le. Z.div_mod_to_equations. lia. }
    rewrite fetch_run, fetch_png_run. simpl token. rewrite Hthrow. auto.
Qed.

Lemma login_token_fetches_witness :
  let b := {| password := JStr "hunter2"; isIOS := JUndefined; pdfFilename := JUndefined |} in
  password b = JStr (PDF_PASSWORD demo_config)
  /\ manifest_computable First demo_config demo_fs b
  /\ exists tok j,
       payload (fst (login First demo_config demo_fs 5000 b)) = Json j
       /\ field "token" j = Some (JsToken tok)
       /\ status (fst (fetch Second demo_config demo_fs 65000
                         {| filename := "valid.pdf"; token := Some tok |})) = 200.
Proof.
  intros b.
  assert (Hpw : password b = JStr (PDF_PASSWORD demo_config)) by reflexivity.
  assert (Hcomp : manifest_computable First demo_config demo_fs b) by exact I.
  split; [exact Hpw|]. split; [exact Hcomp|].
  destruct (login_token_fetches First Second demo_config demo_fs 5000 65000 b "valid.pdf"
              Hpw Hcomp) as (tok & j & Hj & Htok & Hpdf & _).
  exists tok, j. split; [exact Hj|]. split; [exact Htok|].
  rewrite Hpdf; [reflexivity | lia | | vm_compute; reflexivity].
  apply filename_matches_grammar. reflexivity.
Defined.

(** X12.  The second variant extends the first: unless PNG mode is
    requested (the flag, which is on only when the environment variable is
    exactly ['true'], a truthy [isIOS] and a truthy [pdfFilename]), its login
    answers as the first variant's, without a storage call; and whenever it
    succeeds it issues the token the first variant issues.  The login of the
    first variant reads nothing but the password. *)
Theorem second_login_extends_first (cfg : config) (fs : gmap string fs_node) (now : Z)
    (b : auth_body) :
  (png_mode_requested cfg b = false ->
   login Second cfg fs now b = login First cfg fs now b)
  /\ (forall env_value,
        SERVE_PNGS_FOR_IOS cfg = serve_pngs_flag env_value -> env_value <> Some "true" ->
        login Second cfg fs now b = login First cfg fs now b)
  /\ (forall t, login_succeeded (fst (login Second cfg fs now b)) t ->
        fst (login First cfg fs now b) = standard_response t)
  /\ (forall fs' b', password b' = password b ->
        login First cfg fs' now b' = login First cfg fs now b
        /\ snd (login First cfg fs now b) = []).
Proof.
  assert (Hoff : png_mode_requested cfg b = false ->
                 login Second cfg fs now b = login First cfg fs now b).
  { intros Hmode. rewrite login_second, login_first, Hmode.
    destruct (strict_eq_string _ _); reflexivity. }
  split; [exact Hoff|]. split; [|split].
  - intros env Hflag Henv. apply Hoff. unfold png_mode_requested. rewrite Hflag.
    destruct env as [s|]; simpl; [|reflexivity].
    destruct (String.eqb s "true") eqn:Hs; [|reflexivity].
    apply String.eqb_eq in Hs. congruence.
  - intros t. rewrite login_second, login_first.
    destruct (strict_eq_string (password b) (PDF_PASSWORD cfg)).
    + destruct (png_mode_requested cfg b).
      * destruct (V2.getPngListForPdf cfg fs (pdfFilename b) []) as [[pngFiles|e] log]; simpl.
        -- destruct pngFiles; intros (_ & j & Hj & _ & Ht & _); injection Hj as <-;
             simpl in Ht; congruence.
        -- intros [Hst _]. discriminate.
      * simpl. intros (_ & j & Hj & _ & Ht & _). injection Hj as <-. simpl in Ht. congruence.
    + simpl. intros [Hst _]. discriminate.
  - intros fs' b' Hpw. rewrite !login_first, Hpw.
    destruct (strict_eq_string _ _); auto.
Qed.

Lemma second_login_extends_first_witness :
  let cfg := {| PDF_PASSWORD := "hunter2"; JWT_SECRET := "signing-key";
                SERVE_PNGS_FOR_IOS := serve_pngs_flag (Some "TRUE"); dirname := "/app" |} in
  let b := {| password := JStr "hunter2"; isIOS := JBool true;
              pdfFilename := JStr "report.pdf" |} in
  png_mode_requested cfg b = false
  /\ login Second cfg demo_fs 0 b = login First cfg demo_fs 0 b.
Proof.
  intros cfg b. split; [reflexivity|].
  apply (second_login_extends_first cfg demo_fs 0 b). reflexivity.
Defined.

(** X13.  A login is answered 200, 401 or 500.  The first variant never
    answers 500.  The second answers 500 exactly when the password is the
    secret, PNG mode is requested, and either the [pdfFilename] of the body is
    not a string or the path of the page directory is taken by a file; the
    response is then the one of the error middleware, which carries no
    token. *)
Theorem login_failure_modes (v : variant) (cfg : config) (fs : gmap string fs_node)
    (now : Z) (b : auth_body) :
  (status (fst (login v cfg fs now b)) = 200
   \/ status (fst (login v cfg fs now b)) = 401
   \/ status (fst (login v cfg fs now b)) = 500)
  /\ (status (fst (login v cfg fs now b)) = 500 <->
      v = Second
      /\ password b = JStr (PDF_PASSWORD cfg)
      /\ png_mode_requested cfg b = true
      /\ ((forall name, pdfFilename b <> JStr name) \/ fs !! pngs_dir cfg = Some File))
  /\ (status (fst (login v cfg fs now b)) = 500 ->
      fst (login v cfg fs now b) = error_middleware
      /\ forall j, payload (fst (login v cfg fs now b)) = Json j -> field "token" j = None).
Proof.
  destruct v.
  - rewrite login_first. destruct (strict_eq_string _ _); simpl.
    + split; [auto|]. split; [|discriminate]. split; [discriminate|].
      intros (H & _). discriminate.
    + split; [auto|]. split; [|discriminate]. split; [discriminate|].
      intros (H & _). discriminate.
  - rewrite login_second.
    destruct (strict_eq_string (password b) (PDF_PASSWORD cfg)) eqn:Hpw.
    + pose proof (proj1 (strict_eq_string_spec _ _) Hpw) as Hpw'.
      destruct (png_mode_requested cfg b) eqn:Hmode.
      * destruct (pdfFilename b) as [| | | |name|] eqn:Hname;
          try (simpl; split; [auto|]; split;
               [split; [intros _; repeat split; auto; left; intros ?; discriminate | reflexivity]
               | intros _; split; [reflexivity|];
                 intros j Hj; injection Hj as <-; reflexivity]).
        rewrite getPngListForPdf_run.
        destruct (fs !! pngs_dir cfg) as [[|listing]|] eqn:Hfs; simpl.
        -- split; [auto|]. split; [split; [intros _; repeat split; auto | reflexivity]|].
           intros _. split; [reflexivity|]. intros j Hj. injection Hj as <-. reflexivity.
        -- assert (Hst : status (match js_sort V2.by_page
                                         (List.filter
                                            (V2.is_page_of (Str.replace_first ".pdf" "" name))
                                            listing) with
                                 | [] => standard_response (issued_token cfg now)
                                 | _ :: _ => png_response (issued_token cfg now)
                                               (js_sort V2.by_page
                                                  (List.filter
                                                     (V2.is_page_of
                                                        (Str.replace_first ".pdf" "" name))
                                                     listing))
                                 end) = 200).
           { destruct (js_sort V2.by_page _); reflexivity. }
           rewrite Hst. split; [auto|]. split; [|discriminate]. split; [discriminate|].
           intros (_ & _ & _ & [H | H]); [exfalso; eapply H; reflexivity | discriminate].
        -- split; [auto|]. split; [|discriminate]. split; [discriminate|].
           intros (_ & _ & _ & [H | H]); [exfalso; eapply H; reflexivity | discriminate].
      * simpl. split; [auto|]. split; [|discriminate]. split; [discriminate|].
        intros (_ & _ & H & _). discriminate.
    + simpl. split; [auto|]. split; [|discriminate]. split; [discriminate|].
      intros (_ & H & _). apply strict_eq_string_spec in H. congruence.
Qed.

(** A body whose [pdfFilename] is a number, sent with the secret in PNG
    mode, is answered 500. *)
Lemma login_failure_modes_witness :
  let b := {| password := JStr "hunter2"; isIOS := JBool true; pdfFilename := JNum 7 |} in
  status (fst (login Second demo_config demo_fs 0 b)) = 500
  /\ fst (login Second demo_config demo_fs 0 b) = error_middleware.
Proof.
  intros b.
  assert (H : status (fst (login Second demo_config demo_fs 0 b)) = 500)
    by (vm_compute; reflexivity).
  split; [exact H|].
  apply (login_failure_modes Second demo_config demo_fs 0 b). exact H.
Defined.

(** ** The manifest, further *)

Section ManifestFurther.
Import Regex.

Lemma manifest_entry cfg fs name log manifest file :
  fst (V2.getPngListForPdf cfg fs (JStr name) log) = Ret manifest ->
  In file manifest ->
  exists listing,
    fs !! pngs_dir cfg = Some (Dir listing) /\ In file listing
    /\ V2.is_page_of (Str.replace_first ".pdf" "" name) file = true
    /\ manifest = js_sort V2.by_page
                    (List.filter (V2.is_page_of (Str.replace_first ".pdf" "" name)) listing).
Proof.
  rewrite getPngListForPdf_run.
  destruct (fs !! pngs_dir cfg) as [[|listing]|]; simpl; intros Hret Hin.
  - discriminate.
  - injection Hret as <-. exists listing. split; [reflexivity|].
    apply (Permutation_in _ (js_sort_perm page_number _)) in Hin.
    apply filter_In in Hin as [Hin Hpage]. auto.
  - injection Hret as <-. destruct Hin.
Qed.

Lemma page_file_is_long base file :
  V2.is_page_of base file = true -> (4 < String.length file)%nat.
Proof.
  intros H. apply is_page_of_spec in H as [Hs He].
  apply prefix_chars in Hs as [rest Hrest]. apply endsWith_chars in He as [front Hfront].
  rewrite <- length_chars, Hfront, length_app. simpl.
  destruct front as [|c front]; [|simpl; lia].
  exfalso.
  assert (Hin : In "-"%char (Str.chars file)).
  { rewrite Hrest, chars_append. apply in_or_app. left. apply in_or_app. right.
    left. reflexivity. }
  rewrite Hfront in Hin. simpl in Hin. intuition discriminate.
Qed.

Lemma page_group_Some a ds : page_group a = Some ds -> numbered a ds.
Proof.
  unfold page_group.
  destruct (search_suffix page_re (Str.chars a)) as [m|] eqn:Hs; [|discriminate].
  apply search_suffix_Some in Hs as (front & Heq & Hm).
  apply Matches_page_re in Hm as (ds' & Hne & Hall & ->).
  assert (Hgrp : firstn (length ("-"%char :: ds' ++ Str.chars ".png") - 5)
                   (skipn 1 ("-"%char :: ds' ++ Str.chars ".png")) = ds').
  { simpl skipn. rewrite length_cons, length_app. simpl length.
    replace (S (length ds' + 4) - 5)%nat with (length ds') by lia.
    apply firstn_length_app. }
  rewrite Hgrp. intros H. injection H as <-. repeat split; eauto.
Qed.

Lemma digit_val_nonneg c : Str.is_digit c = true -> 0 <= Str.digit_val c.
Proof.
  unfold Str.is_digit, Str.digit_val. intros H. apply andb_true_iff in H as [H _].
  apply N.leb_le in H. change (N_of_ascii "0") with 48%N in H. lia.
Qed.

Lemma to_double_nonneg n : 0 <= n -> 0 <= Str.to_double n.
Proof.
  intros Hn. unfold Str.to_double. destruct (n <? 2 ^ 53); [exact Hn|]. cbv zeta.
  set (k := Z.log2 n - 52).
  assert (Hq : 0 <= n / 2 ^ k).
  { apply Z_div_nonneg_nonneg; [exact Hn|]. apply Z.pow_nonneg. lia. }
  assert (Hp : 0 <= 2 ^ k) by (apply Z.pow_nonneg; lia).
  apply Z.min_glb; [|apply Z.pow_nonneg; lia].
  apply Z.mul_nonneg_nonneg; [|exact Hp].
  destruct (n mod 2 ^ k <? 2 ^ (k - 1)); [exact Hq|].
  destruct (2 ^ (k - 1) <? n mod 2 ^ k); [lia|].
  destruct (Z.even (n / 2 ^ k)); lia.
Qed.

Lemma decimal_value_nonneg ds :
  Forall (fun c => Str.is_digit c = true) ds -> 0 <= Str.decimal_value ds.
Proof.
  unfold Str.decimal_value.
  assert (H : forall acc, 0 <= acc -> Forall (fun c => Str.is_digit c = true) ds ->
                          0 <= fold_left (fun acc c => 10 * acc + Str.digit_val c) ds acc).
  { induction ds as [|c ds IH]; intros acc Hacc Hall; simpl; [exact Hacc|].
    inversion Hall as [|c' ds' Hc Hds]; subst. apply IH; auto.
    pose proof (digit_val_nonneg c Hc). lia. }
  intros Hall. apply H; auto. lia.
Qed.

Lemma parseInt_digits_nonneg ds :
  Forall (fun c => Str.is_digit c = true) ds -> 0 <= Str.parseInt_digits ds.
Proof.
  intros Hall. unfold Str.parseInt_digits. apply to_double_nonneg, decimal_value_nonneg, Hall.
Qed.

Lemma page_number_nonneg a : 0 <= page_number a.
Proof.
  unfold page_number. destruct (page_group a) as [ds|] eqn:Hg.
  - apply page_group_Some in Hg as (_ & Hall & _). apply parseInt_digits_nonneg, Hall.
  - vm_compute. discriminate.
Qed.

Lemma StronglySorted_middle {A} (R : A -> A -> Prop) l1 b l2 a l3 :
  StronglySorted R (l1 ++ b :: l2 ++ a :: l3) -> R b a.
Proof.
  induction l1 as [|x l1 IH]; simpl; intros H.
  - apply StronglySorted_inv in H as [_ H]. rewrite List.Forall_forall in H.
    apply H. apply in_or_app. right. left. reflexivity.
  - apply StronglySorted_inv in H as [H _]. auto.
Qed.

Lemma filter_Permutation_list {A} (f : A -> bool) l1 l2 :
  Permutation l1 l2 -> Permutation (List.filter f l1) (List.filter f l2).
Proof.
  induction 1 as [|x l1 l2 _ IH|x y l|l1 l2 l3 _ IH1 _ IH2]; simpl.
  - constructor.
  - destruct (f x); [constructor|]; exact IH.
  - destruct (f x), (f y); try reflexivity. apply perm_swap.
  - etransitivity; eassumption.
Qed.

Lemma sorted_perm_unique {A} (key : A -> Z) (l1 l2 : list A) :
  StronglySorted (fun a b => key a <= key b) l1 ->
  StronglySorted (fun a b => key a <= key b) l2 ->
  Permutation l1 l2 -> List.NoDup (map key l1) -> l1 = l2.
Proof.
  revert l2. induction l1 as [|x l1 IH]; intros l2 Hs1 Hs2 Hp Hnd.
  - apply Permutation_nil in Hp. congruence.
  - destruct l2 as [|y l2]; [apply Permutation_sym, Permutation_nil in Hp; discriminate|].
    apply StronglySorted_inv in Hs1 as [Hs1 Hx]. apply StronglySorted_inv in Hs2 as [Hs2 Hy].
    rewrite List.Forall_forall in Hx, Hy.
    simpl in Hnd. apply NoDup_cons_iff in Hnd as [Hnin Hnd].
    assert (Hxy : x = y).
    { assert (Hin1 : In x (y :: l2)) by (apply (Permutation_in _ Hp); left; reflexivity).
      assert (Hin2 : In y (x :: l1))
        by (apply (Permutation_in _ (Permutation_sym Hp)); left; reflexivity).
      destruct Hin1 as [-> | Hin1]; [reflexivity|].
      destruct Hin2 as [-> | Hin2]; [reflexivity|].
      exfalso. apply Hnin. specialize (Hx y Hin2). specialize (Hy x Hin1).
      replace (key x) with (key y) by lia. apply in_map, Hin2. }
    subst y. f_equal. apply IH; auto. eapply Permutation_cons_inv. exact Hp.
Qed.

Lemma js_sort_order_independent {A} (key : A -> Z) (l1 l2 : list A) :
  Permutation l1 l2 -> List.NoDup (map key l1) ->
  js_sort (fun a b => key a - key b) l1 = js_sort (fun a b => key a - key b) l2.
Proof.
  intros Hp Hnd. apply (sorted_perm_unique key).
  - apply js_sort_sorted.
  - apply js_sort_sorted.
  - rewrite !js_sort_perm. exact Hp.
  - eapply Permutation_NoDup; [|exact Hnd].
    apply Permutation_map, Permutation_sym, js_sort_perm.
Qed.

End ManifestFurther.

(** X14.  The manifest and the PNG route: an entry of a manifest passes the
    name check of the PNG route exactly when all its characters are grammar
    characters (its length and its ending are already right).  With an
    accepted token such an entry is answered 200 when its key is a file and
    404 when the key is absent, and gets no response when the key is a
    directory; an entry with another character, a space say, is listed by the
    login and then answered 400 by the route. *)
Theorem manifest_entry_at_png_route (cfg : config) (fs : gmap string fs_node)
    (name : string) (log : list fs_event) (manifest : list string) (file : string) :
  fst (V2.getPngListForPdf cfg fs (JStr name) log) = Ret manifest ->
  In file manifest ->
  png_filename_matches file = forallb name_char (Str.chars file)
  /\ forall fs' now tok,
       token_accepted cfg now tok = true ->
       (forallb name_char (Str.chars file) = true ->
        match fs' !! png_path cfg file with
        | Some File =>
            status (fst (fetch_png cfg fs' now {| filename := file; token := tok |})) = 200
            /\ payload (fst (fetch_png cfg fs' now {| filename := file; token := tok |}))
               = Piped (png_path cfg file)
        | Some (Dir _) =>
            fst (fetch_png cfg fs' now {| filename := file; token := tok |}) = no_response
        | None =>
            status (fst (fetch_png cfg fs' now {| filename := file; token := tok |})) = 404
        end)
       /\ (forallb name_char (Str.chars file) = false ->
           fetch_png cfg fs' now {| filename := file; token := tok |} = (invalid_name, [])).
Proof.
  intros Hrun Hin.
  destruct (manifest_entry cfg fs name log manifest file Hrun Hin)
    as (listing & _ & _ & Hpage & _).
  assert (Hcheck : png_filename_matches file = forallb name_char (Str.chars file)).
  { apply eq_true_iff_eq. rewrite png_filename_matches_grammar.
    unfold in_png_grammar. rewrite (grammar_as_checks ".png") by repeat constructor.
    pose proof (page_file_is_long _ _ Hpage) as Hlen.
    apply is_page_of_spec in Hpage as [_ Hends]. rewrite Hends.
    apply Nat.ltb_lt in Hlen. simpl String.length. rewrite Hlen. reflexivity. }
  split; [exact Hcheck|].
  intros fs' now tok Hacc.
  rewrite (fetch_png_accepted cfg fs' now {| filename := file; token := tok |} Hacc).
  simpl filename. rewrite Hcheck. split; intros ->; simpl; [|reflexivity].
  destruct (fs' !! png_path cfg file) as [[|entries]|]; simpl; auto.
Qed.

(** A manifest lists a page whose name has a space and a page whose key
    is a directory: the route answers the first 400 and gives the second no
    response. *)
Lemma manifest_entry_at_png_route_witness :
  let fs : gmap string fs_node :=
    <["/app/pngs" := Dir ["report-1.png"; "report-2 draft.png"]]> ∅ in
  let fs' : gmap string fs_node := <["/app/pngs/report-1.png" := Dir []]> ∅ in
  let tok := Some (issued_token demo_config 0) in
  fst (V2.getPngListForPdf demo_config fs (JStr "report.pdf") [])
  = Ret ["report-2 draft.png"; "report-1.png"]
  /\ In "report-2 draft.png" ["report-2 draft.png"; "report-1.png"]
  /\ png_filename_matches "report-2 draft.png"
     = forallb name_char (Str.chars "report-2 draft.png")
  /\ fetch_png demo_config fs' 1000 {| filename := "report-2 draft.png"; token := tok |}
     = (invalid_name, [])
  /\ fst (fetch_png demo_config fs' 1000 {| filename := "report-1.png"; token := tok |})
     = no_response.
Proof.
  intros fs fs' tok.
  assert (Hrun : fst (V2.getPngListForPdf demo_config fs (JStr "report.pdf") [])
                 = Ret ["report-2 draft.png"; "report-1.png"]) by (vm_compute; reflexivity).
  assert (Hin : In "report-2 draft.png" ["report-2 draft.png"; "report-1.png"])
    by (left; reflexivity).
  assert (Hin' : In "report-1.png" ["report-2 draft.png"; "report-1.png"])
    by (right; left; reflexivity).
  assert (Hacc : token_accepted demo_config 1000 tok = true) by (vm_compute; reflexivity).
  destruct (manifest_entry_at_png_route demo_config fs "report.pdf" []
              ["report-2 draft.png"; "report-1.png"] "report-2 draft.png" Hrun Hin)
    as [Hcheck Hroute].
  destruct (manifest_entry_at_png_route demo_config fs "report.pdf" []
              ["report-2 draft.png"; "report-1.png"] "report-1.png" Hrun Hin')
    as [_ Hroute'].
  split; [exact Hrun|]. split; [exact Hin|]. split; [exact Hcheck|]. split.
  - apply (Hroute fs' 1000 tok Hacc). vm_compute. reflexivity.
  - destruct (Hroute' fs' 1000 tok Hacc) as [Hok _].
    assert (Hdir : fs' !! png_path demo_config "report-1.png" = Some (Dir []))
      by (vm_compute; reflexivity).
    rewrite Hdir in Hok. apply Hok. vm_compute. reflexivity.
Defined.

(** X15.  When the pages of a document have pairwise different page
    numbers, as [parseInt] yields them, the manifest does not depend on the
    order in which the directory lists its entries. *)
Theorem manifest_ignores_listing_order (cfg : config) (fs fs' : gmap string fs_node)
    (name : string) (log : list fs_event) (listing listing' : list string) :
  fs !! pngs_dir cfg = Some (Dir listing) ->
  fs' !! pngs_dir cfg = Some (Dir listing') ->
  Permutation listing listing' ->
  List.NoDup (map page_number
                (List.filter (V2.is_page_of (Str.replace_first ".pdf" "" name)) listing)) ->
  fst (V2.getPngListForPdf cfg fs (JStr name) log)
  = fst (V2.getPngListForPdf cfg fs' (JStr name) log).
Proof.
  intros Hfs Hfs' Hperm Hnd. rewrite !getPngListForPdf_run, Hfs, Hfs'. simpl. f_equal.
  apply (js_sort_order_independent page_number); [|exact Hnd].
  apply filter_Permutation_list, Hperm.
Qed.

Lemma manifest_ignores_listing_order_witness :
  let fs : gmap string fs_node :=
    <["/app/pngs" := Dir ["report-10.png"; "report-2.png"; "report-1.png"]]> ∅ in
  fst (V2.getPngListForPdf demo_config demo_fs (JStr "report.pdf") [])
  = fst (V2.getPngListForPdf demo_config fs (JStr "report.pdf") []).
Proof.
  intros fs.
  apply (manifest_ignores_listing_order demo_config demo_fs fs "report.pdf" []
           ["report-2.png"; "report-1.png"; "report-10.png"]
           ["report-10.png"; "report-2.png"; "report-1.png"]).
  - reflexivity.
  - reflexivity.
  - apply Permutation_sym. apply (@Permutation_cons_append _ ["report-2.png"; "report-1.png"]).
  - vm_compute. repeat constructor; simpl; intuition discriminate.
Defined.

(** The condition is on the numbers that [parseInt] yields: the pages
    9007199254740992 and 9007199254740993 have the same page number, and
    their order in the manifest is their order in the listing. *)
Example manifest_keeps_order_of_rounded_ties :
  let a := "report-9007199254740993.png" in
  let b := "report-9007199254740992.png" in
  page_number a = page_number b
  /\ fst (V2.getPngListForPdf demo_config (<["/app/pngs" := Dir [a; b]]> ∅)
            (JStr "report.pdf") []) = Ret [a; b]
  /\ fst (V2.getPngListForPdf demo_config (<["/app/pngs" := Dir [b; a]]> ∅)
            (JStr "report.pdf") []) = Ret [b; a].
Proof. repeat split; vm_compute; reflexivity. Qed.

(** X16.  Page numbers are never negative, and leading zeros do not count:
    [-007.png] is page 7.  So in a manifest an entry without a page number is
    never listed after an entry with a positive page number. *)
Theorem page_numbers_order_entries (cfg : config) (fs : gmap string fs_node)
    (name : string) (log : list fs_event) :
  (forall a, 0 <= page_number a)
  /\ (forall a a' ds,
        numbered a ds -> numbered a' ("0"%char :: ds) -> page_number a' = page_number a)
  /\ (forall manifest a b,
        fst (V2.getPngListForPdf cfg fs (JStr name) log) = Ret manifest ->
        (forall ds, ~ numbered a ds) -> 0 < page_number b ->
        ~ occurs_before b a manifest).
Proof.
  split; [exact page_number_nonneg|]. split.
  - intros a a' ds Ha Ha'.
    rewrite (page_number_numbered a ds Ha), (page_number_numbered a' _ Ha'). reflexivity.
  - intros manifest a b Hrun Ha Hb (l1 & l2 & l3 & Hocc).
    assert (Hsorted : StronglySorted (fun x y => page_number x <= page_number y) manifest).
    { rewrite getPngListForPdf_run in Hrun.
      destruct (fs !! pngs_dir cfg) as [[|listing]|]; simpl in Hrun.
      - discriminate.
      - injection Hrun as <-. apply (js_sort_sorted page_number).
      - injection Hrun as <-. constructor. }
    rewrite Hocc in Hsorted. apply StronglySorted_middle in Hsorted.
    rewrite (page_number_unnumbered a Ha) in Hsorted. lia.
Qed.

Lemma page_numbers_order_entries_witness :
  numbered "report-7.png" (Str.chars "7")
  /\ numbered "report-007.png" (Str.chars "007")
  /\ page_number "report-007.png" = page_number "report-7.png".
Proof.
  assert (H7 : numbered "report-7.png" (Str.chars "7")).
  { split; [discriminate|]. split; [repeat constructor|]. exists (Str.chars "report").
    reflexivity. }
  assert (H07 : numbered "report-07.png" (Str.chars "07")).
  { split; [discriminate|]. split; [repeat constructor|]. exists (Str.chars "report").
    reflexivity. }
  assert (H007 : numbered "report-007.png" (Str.chars "007")).
  { split; [discriminate|]. split; [repeat constructor|]. exists (Str.chars "report").
    reflexivity. }
  split; [exact H7|]. split; [exact H007|].
  destruct (page_numbers_order_entries demo_config demo_fs "report.pdf" []) as (_ & Hz & _).
  rewrite (Hz "report-07.png" "report-007.png" (Str.chars "07") H07 H007).
  apply (Hz "report-7.png" "report-07.png" (Str.chars "7") H7 H07).
Defined.

(** ** [String.prototype.replace] with a string pattern *)

Section ReplaceFirst.

Lemma chars_of_chars l : Str.chars (Str.of_chars l) = l.
Proof. apply list_ascii_of_string_of_list_ascii. Qed.

Lemma chars_inj s t : Str.chars s = Str.chars t -> s = t.
Proof.
  intros H. apply (f_equal Str.of_chars) in H. unfold Str.of_chars, Str.chars in H.
  rewrite !string_of_list_ascii_of_string in H. exact H.
Qed.

Lemma prefix_split p s : String.prefix p s = true -> exists rest, s = p +:+ rest.
Proof.
  intros H. apply prefix_chars in H as [rest Hrest]. exists (Str.of_chars rest).
  apply chars_inj. rewrite chars_append, chars_of_chars. exact Hrest.
Qed.

Lemma prefix_append p s : String.prefix p (p +:+ s) = true.
Proof. apply (chars_prefix p _ (Str.chars s)). apply chars_append. Qed.

Lemma replace_first_eq pat by_ s :
  Str.replace_first pat by_ s =
    if String.prefix pat s
    then by_ +:+ String.substring (String.length pat) (String.length s - String.length pat) s
    else match s with
         | EmptyString => EmptyString
         | String c s' => String c (Str.replace_first pat by_ s')
         end.
Proof. destruct s; reflexivity. Qed.

Lemma substring_all s : String.substring 0 (String.length s) s = s.
Proof. induction s as [|c s IH]; simpl; [reflexivity | rewrite IH; reflexivity]. Qed.

Lemma substring_after p s n :
  String.substring (String.length p) n (p +:+ s) = String.substring 0 n s.
Proof. induction p as [|c p IH]; simpl; [reflexivity | exact IH]. Qed.

Lemma length_append p s : String.length (p +:+ s) = (String.length p + String.length s)%nat.
Proof. induction p as [|c p IH]; simpl; [reflexivity | rewrite IH; reflexivity]. Qed.

(** The pattern at the start of the string is the occurrence replaced. *)
Lemma replace_first_at_start pat by_ s :
  Str.replace_first pat by_ (pat +:+ s) = by_ +:+ s.
Proof.
  rewrite replace_first_eq, prefix_append, substring_after, length_append.
  replace (String.length pat + String.length s - String.length pat)%nat
    with (String.length s) by lia.
  rewrite substring_all. reflexivity.
Qed.


Lemma replace_first_absent pat by_ s :
  ~ occurs_in pat s -> Str.replace_first pat by_ s = s.
Proof.
  induction s as [|c s IH]; intros Hno; rewrite replace_first_eq.
  - destruct (String.prefix pat "") eqn:Hp; [|reflexivity].
    apply prefix_split in Hp as [rest Hrest]. exfalso. apply Hno.
    exists "", rest. exact Hrest.
  - destruct (String.prefix pat (String c s)) eqn:Hp.
    + apply prefix_split in Hp as [rest Hrest]. exfalso. apply Hno.
      exists "", rest. exact Hrest.
    + f_equal. apply IH. intros (before & after & ->). apply Hno.
      exists (String c before), after. reflexivity.
Qed.


End ReplaceFirst.



(** X18.  The token of a request: a header ['Bearer <t>'] with a non-empty
    [<t>] gives [<t>] and the query parameter is not looked at; a header in
    which ['Bearer '] does not occur is taken whole; without a header, or with
    a header that is empty or just ['Bearer '], the query parameter is taken.
    The header never gives the empty string as token. *)
Theorem token_from_header_or_query (query : jsval) :
  (forall t, t <> "" -> extract_token (Some ("Bearer " +:+ t)) query = JStr t)
  /\ (forall h, h <> "" -> ~ occurs_in "Bearer " h -> extract_token (Some h) query = JStr h)
  /\ extract_token None query = query
  /\ extract_token (Some "") query = query
  /\ extract_token (Some "Bearer ") query = query
  /\ (forall h, extract_token (Some h) query = JStr "" -> query = JStr "")
  /\ (forall h query',
        truthy (JStr (Str.replace_first "Bearer " "" h)) = true ->
        extract_token (Some h) query = extract_token (Some h) query').
Proof.
  assert (Htruthy : forall t, t <> "" -> truthy (JStr t) = true).
  { intros t Ht. simpl. apply negb_true_iff. apply String.eqb_neq. exact Ht. }
  split; [|split; [|split; [|split; [|split; [|split]]]]]; try reflexivity.
  - intros t Ht. unfold extract_token.
    rewrite (replace_first_at_start "Bearer " "" t). change ("" +:+ t) with t.
    cbv zeta. rewrite (Htruthy t Ht). reflexivity.
  - intros h Hh Hno. unfold extract_token. rewrite (replace_first_absent _ _ _ Hno).
    cbv zeta. rewrite (Htruthy h Hh). reflexivity.
  - intros h. unfold extract_token.
    destruct (truthy (JStr (Str.replace_first "Bearer " "" h))) eqn:Ht; [|auto].
    intros Heq. injection Heq as Heq. rewrite Heq in Ht. discriminate.
  - intros h query' Ht. unfold extract_token. rewrite Ht. reflexivity.
Qed.

Lemma token_from_header_or_query_witness :
  "abc.def.ghi" <> ""
  /\ extract_token (Some ("Bearer " +:+ "abc.def.ghi")) (JStr "from-query") = JStr "abc.def.ghi".
Proof.
  assert (H : "abc.def.ghi" <> "") by discriminate.
  split; [exact H|].
  apply (token_from_header_or_query (JStr "from-query")). exact H.
Defined.

(** ** The origins of the CORS middleware *)

Section Origins.
Variable sep : ascii.

Lemma split_chars_cons w : exists piece pieces, split_chars sep w = piece :: pieces.
Proof.
  induction w as [|c w (piece & pieces & IH)]; simpl; [eauto|].
  destruct (Ascii.eqb c sep); [eauto|]. rewrite IH. eauto.
Qed.

Lemma join_split w : join_chars sep (split_chars sep w) = w.
Proof.
  induction w as [|c w IH]; [reflexivity|]. simpl split_chars.
  destruct (Ascii.eqb c sep) eqn:Hc.
  - apply Ascii.eqb_eq in Hc as ->.
    destruct (split_chars_cons w) as (piece & pieces & Hw). rewrite Hw in *.
    simpl. simpl in IH. rewrite IH. reflexivity.
  - destruct (split_chars_cons w) as (piece & pieces & Hw). rewrite Hw in *.
    destruct pieces; simpl in *; rewrite IH; reflexivity.
Qed.

Lemma split_pieces_without_sep w piece :
  In piece (split_chars sep w) -> ~ In sep piece.
Proof.
  revert piece. induction w as [|c w IH]; intros piece; simpl.
  - intros [<- | []] [].
  - destruct (Ascii.eqb c sep) eqn:Hc.
    + intros [<- | Hin]; [intros [] | auto].
    + destruct (split_chars_cons w) as (p & ps & Hw). rewrite Hw in *.
      intros [<- | Hin].
      * intros [-> | Hin].
        -- rewrite Ascii.eqb_refl in Hc. discriminate.
        -- apply (IH p); [left; reflexivity | exact Hin].
      * apply IH. right. exact Hin.
Qed.

Lemma split_app_sep piece w :
  ~ In sep piece -> split_chars sep (piece ++ sep :: w) = piece :: split_chars sep w.
Proof.
  induction piece as [|c piece IH]; intros Hnin; simpl.
  - rewrite Ascii.eqb_refl. reflexivity.
  - destruct (Ascii.eqb c sep) eqn:Hc.
    + apply Ascii.eqb_eq in Hc. exfalso. apply Hnin. left. exact Hc.
    + rewrite IH; [reflexivity|]. intros Hin. apply Hnin. right. exact Hin.
Qed.

Lemma split_without_sep piece : ~ In sep piece -> split_chars sep piece = [piece].
Proof.
  induction piece as [|c piece IH]; intros Hnin; simpl; [reflexivity|].
  destruct (Ascii.eqb c sep) eqn:Hc.
  - apply Ascii.eqb_eq in Hc. exfalso. apply Hnin. left. exact Hc.
  - rewrite IH; [reflexivity|]. intros Hin. apply Hnin. right. exact Hin.
Qed.

Lemma split_join pieces :
  pieces <> [] -> Forall (fun piece => ~ In sep piece) pieces ->
  split_chars sep (join_chars sep pieces) = pieces.
Proof.
  induction pieces as [|p pieces IH]; intros Hne Hall; [congruence|].
  inversion Hall as [|p' ps' Hp Hps]; subst.
  destruct pieces as [|q pieces].
  - simpl. apply split_without_sep, Hp.
  - change (join_chars sep (p :: q :: pieces)) with (p ++ sep :: join_chars sep (q :: pieces)).
    rewrite split_app_sep by exact Hp. f_equal. apply IH; [discriminate | exact Hps].
Qed.

Lemma chars_concat pieces :
  Str.chars (String.concat (String sep "") (map Str.of_chars pieces)) = join_chars sep pieces.
Proof.
  induction pieces as [|p pieces IH]; [reflexivity|].
  destruct pieces as [|q pieces].
  - simpl. apply chars_of_chars.
  - change (String.concat (String sep "") (map Str.of_chars (p :: q :: pieces)))
      with (Str.of_chars p +:+ String sep "" +:+
            String.concat (String sep "") (map Str.of_chars (q :: pieces))).
    rewrite !chars_append, chars_of_chars, IH. reflexivity.
Qed.

End Origins.

(** X19.  The origins of the CORS middleware are the comma-separated pieces
    of [ALLOWED_ORIGINS], as they stand (nothing is trimmed): joined by commas
    they give the variable back, no piece holds a comma, and a list of origins
    without commas, written with commas between them, is read back as that
    list.  There is always at least one origin; the default origin is used
    only when the variable is not set, and a variable that is set but empty
    gives the single empty origin. *)
Theorem allowed_origins_split (env_value : option string) :
  (forall s, String.concat "," (allowed_origins (Some s)) = s)
  /\ (forall s origin, In origin (allowed_origins (Some s)) -> ~ contains ","%char origin)
  /\ allowed_origins env_value <> []
  /\ (forall origins,
        origins <> [] -> (forall origin, In origin origins -> ~ contains ","%char origin) ->
        allowed_origins (Some (String.concat "," origins)) = origins)
  /\ (allowed_origins env_value = ["https://URL.info"] <->
      env_value = None \/ env_value = Some "https://URL.info")
  /\ allowed_origins (Some "") = [""].
Proof.
  assert (Hround : forall s, String.concat "," (allowed_origins (Some s)) = s).
  { intros s. apply chars_inj. unfold allowed_origins, js_split.
    rewrite (chars_concat ","%char). apply join_split. }
  split; [exact Hround|]. split; [|split; [|split; [|split]]].
  - intros s origin Hin. unfold allowed_origins, js_split in Hin.
    apply in_map_iff in Hin as (piece & <- & Hin). unfold contains.
    rewrite chars_of_chars. apply (split_pieces_without_sep _ _ _ Hin).
  - destruct env_value as [s|]; simpl; [|discriminate]. unfold js_split.
    destruct (split_chars_cons ","%char (Str.chars s)) as (p & ps & ->). discriminate.
  - intros origins Hne Hall. unfold allowed_origins, js_split.
    assert (Heq : origins = map Str.of_chars (map Str.chars origins)).
    { rewrite map_map. rewrite <- (map_id origins) at 1. apply map_ext.
      intros o. symmetry. apply string_of_list_ascii_of_string. }
    rewrite Heq at 1. rewrite (chars_concat ","%char), split_join.
    + symmetry. exact Heq.
    + destruct origins; [congruence | discriminate].
    + apply List.Forall_forall. intros piece Hin.
      apply in_map_iff in Hin as (o & <- & Hin). apply (Hall o Hin).
  - split.
    + destruct env_value as [s|]; [|auto]. intros Heq. right. f_equal.
      rewrite <- (Hround s), Heq. reflexivity.
    + intros [-> | ->]; reflexivity.
  - reflexivity.
Qed.

Lemma allowed_origins_split_witness :
  let origins := ["https://a.example"; " https://b.example"] in
  origins <> []
  /\ (forall origin, In origin origins -> ~ contains ","%char origin)
  /\ allowed_origins (Some "https://a.example, https://b.example") = origins.
Proof.
  intros origins.
  assert (Hne : origins <> []) by discriminate.
  assert (Hall : forall origin, In origin origins -> ~ contains ","%char origin).
  { intros origin [<- | [<- | []]]; unfold contains; simpl; intuition discriminate. }
  split; [exact Hne|]. split; [exact Hall|].
  destruct (allowed_origins_split None) as (_ & _ & _ & Hback & _).
  apply (Hback origins Hne Hall).
Defined.
